(** * strip_iop: a shallow embedding of [scripts/strip_iop.py]

    The script removes GUI code from a darktable IOP [.c] file.  It works on
    the list of lines returned by [readlines], classifies functions with
    Python regular expressions, and deletes or rewrites lines in seven passes.

    Text is modelled with the standard [string] type; a character is a code
    point below 256 and the classes [\w], [\s] and [str.isspace] are the ones
    Python uses on that range.  Regular expressions are kept as syntax trees
    and run by a backtracking matcher with Python's priorities (greedy
    repetition, ordered alternation), so that captured groups are the ones
    [re] reports. *)

From Stdlib Require Import Ascii String NArith ZArith Lia.
From stdpp Require Import base option list sets gmap strings relations sorting.

#[local] Set Warnings "-clear-no-such-hyp".

(** ** Characters *)

Definition code (c : ascii) : N := N_of_ascii c.

Definition between (lo hi : N) (c : ascii) : bool :=
  (lo <=? code c)%N && (code c <=? hi)%N.

(** [str.isspace], which is also [\s] of a [str] pattern. *)
Definition is_space (c : ascii) : bool :=
  between 9 13 c || between 28 32 c || (code c =? 133)%N || (code c =? 160)%N.

Definition is_ascii_alpha (c : ascii) : bool :=
  between 65 90 c || between 97 122 c.

Definition is_digit (c : ascii) : bool := between 48 57 c.

(** [\w]: alphanumeric code points and the underscore. *)
Definition is_word (c : ascii) : bool :=
  is_ascii_alpha c || is_digit c || (code c =? 95)%N
  || (code c =? 170)%N || between 178 179 c || (code c =? 181)%N
  || between 185 186 c || between 188 190 c || between 192 214 c
  || between 216 246 c || between 248 255 c.

Definition lower (c : ascii) : ascii :=
  if between 65 90 c then ascii_of_N (code c + 32) else c.

Definition ascii_eqb (a b : ascii) : bool := (code a =? code b)%N.

Definition dquote : ascii := "034"%char.
Definition squote : ascii := "039"%char.
Definition backslash : ascii := "092"%char.
Definition newline : ascii := "010"%char.

(** ** Python string operations *)

Fixpoint startswith (p s : string) : bool :=
  match p, s with
  | EmptyString, _ => true
  | String a p', String b s' => ascii_eqb a b && startswith p' s'
  | String _ _, EmptyString => false
  end.

(** [sub in s] *)
Fixpoint contains (sub s : string) : bool :=
  startswith sub s ||
  match s with
  | EmptyString => false
  | String _ s' => contains sub s'
  end.

Fixpoint drop_str (n : nat) (s : string) : string :=
  match n, s with
  | O, _ => s
  | S n', String _ s' => drop_str n' s'
  | S _, EmptyString => EmptyString
  end.

Fixpoint take_str (n : nat) (s : string) : string :=
  match n, s with
  | S n', String c s' => String c (take_str n' s')
  | _, _ => EmptyString
  end.

Fixpoint lstrip (s : string) : string :=
  match s with
  | String c s' => if is_space c then lstrip s' else s
  | EmptyString => EmptyString
  end.

Fixpoint rstrip (s : string) : string :=
  match s with
  | EmptyString => EmptyString
  | String c s' =>
      match rstrip s' with
      | EmptyString => if is_space c then EmptyString else String c EmptyString
      | t => String c t
      end
  end.

(** [s.strip()] *)
Definition strip (s : string) : string := rstrip (lstrip s).

(** [s.lstrip(c)] for a one-character argument *)
Fixpoint lstrip_char (ch : ascii) (s : string) : string :=
  match s with
  | String c s' => if ascii_eqb c ch then lstrip_char ch s' else s
  | EmptyString => EmptyString
  end.

(** [s[:s.find(sub)]] when [sub] occurs in [s], and [s] otherwise *)
Fixpoint cut_at (sub s : string) : string :=
  if startswith sub s then EmptyString
  else match s with
       | EmptyString => EmptyString
       | String c s' => String c (cut_at sub s')
       end.

(** [sep.join(parts)] *)
Fixpoint join (sep : string) (parts : list string) : string :=
  match parts with
  | [] => EmptyString
  | [p] => p
  | p :: rest => p +:+ sep +:+ join sep rest
  end.

Definition nl : string := String newline EmptyString.

(** [lines[a:b+1]] *)
Definition slice (lines : list string) (a b : nat) : list string :=
  take (S b - a) (drop a lines).

(** ** Regular expressions *)

Inductive citem : Type :=
  | CChr (c : ascii)
  | CRange (lo hi : ascii)
  | CWord
  | CSpace.

Inductive re : Type :=
  | Lit (s : string)            (* a run of literal characters *)
  | LitI (s : string)           (* the same under re.IGNORECASE *)
  | Any                         (* .  *)
  | Word                        (* \w *)
  | Space                       (* \s *)
  | OneOf (items : list citem)  (* [...]  *)
  | NoneOf (items : list citem) (* [^...] *)
  | Seq (r1 r2 : re)
  | Alt (r1 r2 : re)
  | Star (r : re)
  | Plus (r : re)
  | Opt (r : re)
  | Group (n : nat) (r : re)    (* capturing group number n *)
  | Bos                         (* ^  *)
  | Eos                         (* $  *)
  | Wordb.                      (* \b *)

Declare Scope re_scope.
Delimit Scope re_scope with re.
Bind Scope re_scope with re.
Infix "⋅" := Seq (at level 41, right associativity) : re_scope.
Infix "∥" := Alt (at level 42, right associativity) : re_scope.

Definition citem_has (c : ascii) (i : citem) : bool :=
  match i with
  | CChr a => ascii_eqb a c
  | CRange lo hi => between (code lo) (code hi) c
  | CWord => is_word c
  | CSpace => is_space c
  end.

(** The state of a match attempt: the character before the cursor, the text
    after it, and the groups closed so far (latest first). *)
Record mstate : Type := MState {
  prev : option ascii;
  rest : string;
  caps : list (nat * string)
}.

Definition advance (c : ascii) (s' : string) (st : mstate) : mstate :=
  MState (Some c) s' (caps st).

Definition step_class (p : ascii -> bool) (st : mstate) : option mstate :=
  match rest st with
  | String c s' => if p c then Some (advance c s' st) else None
  | EmptyString => None
  end.

Fixpoint step_lit (eq : ascii -> ascii -> bool) (l : string) (st : mstate)
  : option mstate :=
  match l with
  | EmptyString => Some st
  | String a l' =>
      match step_class (eq a) st with
      | Some st' => step_lit eq l' st'
      | None => None
      end
  end.

Definition eq_nocase (a b : ascii) : bool := ascii_eqb (lower a) (lower b).

Definition word_before (st : mstate) : bool :=
  match prev st with Some c => is_word c | None => false end.

Definition word_after (st : mstate) : bool :=
  match rest st with String c _ => is_word c | EmptyString => false end.

Definition at_end (st : mstate) : bool :=
  match rest st with
  | EmptyString => true
  | String c EmptyString => ascii_eqb c newline
  | _ => false
  end.

Definition is_bos (st : mstate) : bool :=
  match prev st with None => true | Some _ => false end.

Definition close_group (n : nat) (st0 st1 : mstate) : mstate :=
  MState (prev st1) (rest st1)
    ((n, take_str (String.length (rest st0) - String.length (rest st1)) (rest st0))
       :: caps st1).

Definition guard {A} (b : bool) (k : option A) : option A :=
  if b then k else None.

Definition orelse {A} (a b : option A) : option A :=
  match a with Some _ => a | None => b end.

Section Matcher.
Context {A : Type}.

(** Backtracking matcher in continuation-passing style: [run r k st] is the
    first success of [k] over the ways [r] can match at [st], in the order
    Python's engine tries them. *)
Fixpoint run (r : re) (k : mstate -> option A) (st : mstate) : option A :=
  match r with
  | Lit l => st' ← step_lit ascii_eqb l st; k st'
  | LitI l => st' ← step_lit eq_nocase l st; k st'
  | Any => st' ← step_class (fun c => negb (ascii_eqb c newline)) st; k st'
  | Word => st' ← step_class is_word st; k st'
  | Space => st' ← step_class is_space st; k st'
  | OneOf items => st' ← step_class (fun c => existsb (citem_has c) items) st; k st'
  | NoneOf items =>
      st' ← step_class (fun c => negb (existsb (citem_has c) items)) st; k st'
  | Seq r1 r2 => run r1 (run r2 k) st
  | Alt r1 r2 => orelse (run r1 k st) (run r2 k st)
  | Star r1 =>
      (fix loop (fuel : nat) (st : mstate) {struct fuel} : option A :=
         match fuel with
         | O => k st
         | S fuel' =>
             orelse
               (run r1 (fun st' =>
                  guard (String.length (rest st') <? String.length (rest st))%nat
                        (loop fuel' st')) st)
               (k st)
         end) (String.length (rest st)) st
  | Plus r1 =>
      run r1
        ((fix loop (fuel : nat) (st : mstate) {struct fuel} : option A :=
            match fuel with
            | O => k st
            | S fuel' =>
                orelse
                  (run r1 (fun st' =>
                     guard (String.length (rest st') <? String.length (rest st))%nat
                           (loop fuel' st')) st)
                  (k st)
            end) (String.length (rest st))) st
  | Opt r1 => orelse (run r1 k st) (k st)
  | Group n r1 => run r1 (fun st' => k (close_group n st st')) st
  | Bos => guard (is_bos st) (k st)
  | Eos => guard (at_end st) (k st)
  | Wordb => guard (xorb (word_before st) (word_after st)) (k st)
  end.
End Matcher.

Definition captures : Type := list (nat * string).

Fixpoint group (n : nat) (c : captures) : string :=
  match c with
  | [] => EmptyString
  | (m, s) :: c' => if (m =? n)%nat then s else group n c'
  end.

Definition start_state (s : string) : mstate := MState None s [].

(** [re.match(r, s)] *)
Definition re_match (r : re) (s : string) : option captures :=
  run r (fun st => Some (caps st)) (start_state s).

Fixpoint search_from (r : re) (p : option ascii) (s : string) : option captures :=
  orelse (run r (fun st => Some (caps st)) (MState p s []))
    match s with
    | EmptyString => None
    | String c s' => search_from r (Some c) s'
    end.

(** [re.search(r, s)] *)
Definition re_search (r : re) (s : string) : option captures :=
  search_from r None s.

Definition matches (r : re) (s : string) : bool := bool_decide (is_Some (re_match r s)).
Definition found (r : re) (s : string) : bool := bool_decide (is_Some (re_search r s)).

(** Shorthands used by the patterns below. *)
Definition sp0 : re := Star Space.            (* \s* *)
Definition sp1 : re := Plus Space.            (* \s+ *)
Definition w1 : re := Plus Word.              (* \w+ *)
Definition ch (c : ascii) : string := String c EmptyString.
Definition quoted_open (s : string) : string := String dquote s.
Definition quoted (s : string) : string := String dquote (s +:+ ch dquote).
Definition ident : re :=                      (* [a-zA-Z_]\w* *)
  (OneOf [CRange "a" "z"; CRange "A" "Z"; CChr "_"] ⋅ Star Word)%re.

(** ** Configuration *)

Definition GUI_INCLUDE_PATTERNS : list re :=
  [ Lit (quoted "bauhaus/bauhaus.h");
    (Lit (quoted_open "dtgtk/") ⋅ Star (NoneOf [CChr dquote]) ⋅ Lit (ch dquote))%re;
    (Lit (quoted_open "gui/") ⋅ Star (NoneOf [CChr dquote]) ⋅ Lit (ch dquote))%re;
    Lit "<gtk/gtk.h>";
    Lit (quoted "develop/imageop_gui.h");
    (OneOf [CChr "<"; CChr dquote]
       ⋅ Star (NoneOf [CChr dquote; CChr "<"; CChr ">"])
       ⋅ LitI "gui"
       ⋅ Star (NoneOf [CChr dquote; CChr "<"; CChr ">"])
       ⋅ OneOf [CChr ">"; CChr dquote])%re ].

Definition GUI_FUNCTION_NAMES : gset string :=
  list_to_set
    [ "gui_init"; "gui_cleanup"; "gui_update"; "gui_changed"; "gui_reset";
      "gui_focus"; "color_picker_apply"; "mouse_moved"; "mouse_pressed";
      "mouse_released"; "mouse_scrolled"; "mouse_leave"; "mouse_actions" ].

Definition GUI_FUNCTION_PREFIXES : list string := [ "gui_" ].

Definition KEEP_FUNCTIONS : gset string :=
  list_to_set
    [ "process"; "process_cl"; "init"; "cleanup"; "commit_params"; "init_pipe";
      "cleanup_pipe"; "init_global"; "cleanup_global"; "modify_roi_in";
      "modify_roi_out"; "distort_transform"; "distort_backtransform";
      "distort_mask"; "name"; "aliases"; "description"; "default_group";
      "flags"; "default_colorspace"; "input_colorspace"; "output_colorspace";
      "blend_colorspace"; "legacy_params"; "init_presets"; "reload_defaults";
      "tiling_callback" ].

Definition GUI_TOKENS : list string :=
  [ "_gui_data_t"; "GtkWidget"; "GtkStack"; "GtkLabel"; "GtkToggleButton";
    "GtkDrawingArea"; "GtkNotebook"; "GtkAllocation"; "GtkStyleContext";
    "GtkColorButton"; "GtkBin"; "GTK_WIDGET"; "GTK_LABEL"; "GTK_STACK";
    "GTK_BIN"; "GTK_BUTTON"; "GTK_IS_GESTURE"; "GTK_TOGGLE_BUTTON";
    "GTK_DRAWING_AREA"; "gtk_widget_"; "gtk_label_"; "gtk_box_"; "gtk_stack_";
    "gtk_toggle_"; "gtk_button_"; "gtk_drawing_area_"; "gtk_notebook_";
    "dt_bauhaus_"; "darktable.gui"; "darktable.bauhaus"; "dt_iop_gui_";
    "IOP_GUI_ALLOC"; "g_signal_connect"; "g_idle_add"; "g_idle_remove";
    "DT_PIXEL_APPLY_DPI"; "DT_BAUHAUS_"; "PANGO_ELLIPSIZE"; "PangoRectangle";
    "pango_"; "cairo_set_source"; "cairo_rectangle"; "cairo_fill";
    "cairo_stroke"; "cairo_destroy"; "cairo_create"; "cairo_paint";
    "cairo_set_line"; "cairo_surface_"; "dt_cairo_image_surface";
    "dt_action_widget_toast"; "dt_shortcut_register";
    "dt_dev_add_history_item"; "dt_color_picker_new";
    "dt_iop_color_picker_reset"; "dt_gui_update_collapsible";
    "dt_gui_new_collapsible"; "dt_gui_box_add"; "dt_gui_hbox"; "dt_gui_vbox";
    "dt_gui_expand"; "dt_ui_label_new"; "dt_ui_section_label_new" ].

(** ** Brace-matching helpers *)

Inductive lit_mode : Type :=
  | Outside                 (* the outer loop *)
  | Inside (q : ascii)      (* the inner loop of a literal opened by q *)
  | Escaped (q : ascii).    (* after a backslash: [i += 2] skips this one *)

Fixpoint mask_from (m : lit_mode) (line : string) : string :=
  match line with
  | EmptyString => EmptyString
  | String c tl =>
      match m with
      | Outside =>
          if ascii_eqb c dquote || ascii_eqb c squote
          then mask_from (Inside c) tl
          else String c (mask_from Outside tl)
      | Inside q =>
          if ascii_eqb c backslash then mask_from (Escaped q) tl
          else if ascii_eqb c q then mask_from Outside tl
          else mask_from (Inside q) tl
      | Escaped q => mask_from (Inside q) tl
      end
  end.

Definition _strip_strings_and_chars (line : string) : string :=
  mask_from Outside line.

(** The [for ch in stripped] loop of [find_brace_block_end]: [inl tt] when the
    closing brace is on this line, otherwise the depth and flag it leaves. *)
Fixpoint scan_braces (s : string) (depth : Z) (found_open : bool)
  : unit + Z * bool :=
  match s with
  | EmptyString => inr (depth, found_open)
  | String c tl =>
      if ascii_eqb c "{" then scan_braces tl (depth + 1)%Z true
      else if ascii_eqb c "}" then
        if found_open && (depth - 1 =? 0)%Z then inl tt
        else scan_braces tl (depth - 1)%Z found_open
      else scan_braces tl depth found_open
  end.

Definition code_part (line : string) : string :=
  cut_at "//" (_strip_strings_and_chars line).

Fixpoint block_end_from (ls : list string) (i : nat) (depth : Z) (found_open : bool)
  : option nat :=
  match ls with
  | [] => None
  | line :: ls' =>
      match scan_braces (code_part line) depth found_open with
      | inl _ => Some i
      | inr (depth', found_open') => block_end_from ls' (S i) depth' found_open'
      end
  end.

Definition find_brace_block_end (lines : list string) (start_idx : nat) : option nat :=
  block_end_from (drop start_idx lines) start_idx 0 false.

(** ** Line classifiers *)

Definition is_gui_include (line : string) : bool :=
  let stripped := strip line in
  if negb (startswith "#include" stripped) then false
  else existsb (fun pattern => found pattern stripped) GUI_INCLUDE_PATTERNS.

Definition GUI_DATA_STRUCT_RE : re :=
  (Wordb ⋅ Lit "typedef" ⋅ sp1 ⋅ Lit "struct" ⋅ sp1
     ⋅ Lit "dt_iop_" ⋅ w1 ⋅ Lit "_gui_data_t" ⋅ Wordb)%re.

Definition is_gui_data_struct_start (line : string) : bool :=
  found GUI_DATA_STRUCT_RE line.

(** ** Function detection *)

Definition alts (words : list string) (last : re) : re :=
  foldr (fun w r => Alt (Lit w) r) last words.

(** Groups: 1 = qualifiers, 2 = return_type, 3 = name. *)
Definition FUNC_DEF_RE : re :=
  (Bos
   ⋅ Group 1 (Star ((Lit "static" ⋅ sp1) ∥ (Lit "const" ⋅ sp1)
                     ∥ (Lit "inline" ⋅ sp1) ∥ (Lit "DT_OMP_" ⋅ w1 ⋅ sp1)))
   ⋅ Group 2
       (Star (alts ["unsigned"; "signed"; "long"; "short"; "struct"; "enum"; "const"]
                   (Lit "volatile") ⋅ sp1)
        ⋅ (Lit "void" ∥ Lit "int" ∥ Lit "float" ∥ Lit "double" ∥ Lit "gboolean"
           ∥ Lit "gchar" ∥ Lit "char" ∥ Lit "size_t" ∥ Lit "cl_int"
           ∥ (Lit "dt_" ⋅ w1) ∥ Lit "GtkWidget" ∥ (Lit "cairo_" ⋅ w1))
        ⋅ sp0 ⋅ Opt (Lit "*") ⋅ sp0)
   ⋅ Group 3 ident ⋅ sp0 ⋅ Lit "(")%re.

(** Group 1 is the declared name. *)
Definition FORWARD_DECL_RE : re :=
  (Bos ⋅ Lit "static" ⋅ sp1 ⋅ Plus (OneOf [CWord; CSpace; CChr "*"]) ⋅ Wordb
   ⋅ Group 1 ident ⋅ sp0 ⋅ Lit "(" ⋅ Star (NoneOf [CChr ")"]) ⋅ Lit ")"
   ⋅ sp0 ⋅ Lit ";")%re.

Definition NOT_FUNCTIONS : gset string :=
  list_to_set
    [ "if"; "for"; "while"; "switch"; "return"; "sizeof"; "typeof";
      "DT_OMP_FOR"; "DT_OMP_FOR_SIMD"; "DT_OMP_PRAGMA" ].

Definition FORWARD_END_RE : re :=
  (Star Any ⋅ Lit ")" ⋅ sp0 ⋅ Lit ";" ⋅ Eos)%re.

Definition is_forward_declaration (line : string) : bool :=
  matches FORWARD_END_RE (strip line).

(** [(None, None)] is [None]; otherwise the name and whether the qualifiers
    contain [static]. *)
Definition get_function_name (line : string) : option (string * bool) :=
  let stripped := strip line in
  if String.eqb stripped EmptyString || startswith "#" stripped
     || startswith "//" stripped || startswith "/*" stripped
  then None
  else match re_match FUNC_DEF_RE stripped with
       | Some m =>
           let name := group 3 m in
           let is_static := contains "static" (group 1 m) in
           if bool_decide (name ∈ NOT_FUNCTIONS) then None
           else Some (name, is_static)
       | None => None
       end.

Definition is_explicitly_gui_function (name : string) : bool :=
  bool_decide (name ∈ GUI_FUNCTION_NAMES)
  || existsb (fun prefix => startswith prefix name) GUI_FUNCTION_PREFIXES.

Definition function_body_has_gui_tokens (func_body : string) : bool :=
  existsb (fun token => contains token func_body) GUI_TOKENS.

(** ** Loops over a line index

    [while i < bound: ...] where every iteration moves [i] forward.  The
    body returns the next index and the next state. *)

Section IndexLoop.
Context {St : Type} (body : nat → St → nat * St) (bound : nat).

Fixpoint index_loop (fuel : nat) (i : nat) (s : St) : St :=
  match fuel with
  | O => s
  | S fuel' =>
      if (i <? bound)%nat
      then let '(i', s') := body i s in index_loop fuel' i' s'
      else s
  end.
End IndexLoop.

(** [lines[i]] for an index the caller keeps in range. *)
Definition line_at (lines : list string) (i : nat) : string :=
  default EmptyString (lines !! i).

(** ** Build function map (skipping forward declarations) *)

(** A [func_map] value [(start, end, is_static)]. *)
Definition span : Type := nat * nat * bool.

(** A Python [dict] keeps its keys in insertion order; assigning to a key
    that is present replaces the value where the key already stands. *)
Definition func_map : Type := list (string * span).

Fixpoint dict_get (k : string) (d : func_map) : option span :=
  match d with
  | [] => None
  | (k', v) :: d' => if String.eqb k k' then Some v else dict_get k d'
  end.

Fixpoint dict_set (k : string) (v : span) (d : func_map) : func_map :=
  match d with
  | [] => [(k, v)]
  | (k', v') :: d' =>
      if String.eqb k k' then (k, v) :: d' else (k', v') :: dict_set k v d'
  end.

Definition build_step (lines : list string) (i : nat) (fm : func_map)
  : nat * func_map :=
  match get_function_name (line_at lines i) with
  | Some (name, is_static) =>
      if is_forward_declaration (line_at lines i) then (S i, fm)
      else if bool_decide (S i < length lines)
              && is_forward_declaration (line_at lines i +:+ line_at lines (S i))
      then (S i, fm)
      else match find_brace_block_end lines i with
           | Some end_ => (S end_, dict_set name (i, end_, is_static) fm)
           | None => (S i, fm)
           end
  | None => (S i, fm)
  end.

Definition build_function_map (lines : list string) : func_map :=
  index_loop (build_step lines) (length lines) (length lines) 0 [].

(** ** References to a function name *)

Definition word_re (name : string) : re := (Wordb ⋅ Lit name ⋅ Wordb)%re.

Definition in_span (fm : func_map) (j : nat) (sn : string) : bool :=
  match dict_get sn fm with
  | Some (ss, se, _) => bool_decide (ss ≤ j ≤ se)
  | None => false
  end.

Definition names_forward_decl (name line : string) : bool :=
  match re_match FORWARD_DECL_RE (strip line) with
  | Some fwd => String.eqb (group 1 fwd) name
  | None => false
  end.

(** The [for j, line in enumerate(lines)] loop of [has_external_ref]. *)
Fixpoint ref_scan (name : string) (fm : func_map) (skip_set : gset string)
    (start end_ : nat) (j : nat) (ls : list string) : bool :=
  match ls with
  | [] => false
  | line :: ls' =>
      if bool_decide (start ≤ j ≤ end_) then ref_scan name fm skip_set start end_ (S j) ls'
      else if bool_decide (set_Exists (λ sn, in_span fm j sn = true) skip_set)
      then ref_scan name fm skip_set start end_ (S j) ls'
      else if names_forward_decl name line
      then ref_scan name fm skip_set start end_ (S j) ls'
      else if found (word_re name) line then true
      else ref_scan name fm skip_set start end_ (S j) ls'
  end.

Definition has_external_ref (name : string) (lines : list string)
    (fm : func_map) (skip_set : gset string) : bool :=
  match dict_get name fm with
  | None => true
  | Some (start, end_, _) => ref_scan name fm skip_set start end_ 0 lines
  end.

(** ** Iterative function removal *)

Definition body_of (lines : list string) (start end_ : nat) : string :=
  join nl (slice lines start end_).

(** ** Call graph *)

(** The inner loop of [build_call_graph]: the set [calls[caller_name]]. *)
Definition callees_body (caller_name body : string) (callees : gset string)
    (entry : string * span) : gset string :=
  let '(callee_name, _) := entry in
  if String.eqb callee_name caller_name then callees
  else if found (word_re callee_name) body then callees ∪ {[callee_name]}
  else callees.

(** [calls], a dictionary with the keys of [func_map] in their order. *)
Definition call_graph : Type := list (string * gset string).

Definition build_call_graph (lines : list string) (fm : func_map) : call_graph :=
  (λ entry : string * span,
     let '(caller_name, (start, end_, _)) := entry in
     (caller_name,
      foldl (callees_body caller_name (body_of lines start end_)) ∅ fm)) <$> fm.

(** [while changed: changed = False; for ...: ...]: one [sweep] is the [for]
    loop, returning the set and the flag. *)
Fixpoint while_changed (fuel : nat) (sweep : gset string → gset string * bool)
    (s : gset string) : gset string :=
  match fuel with
  | O => s
  | S fuel' =>
      let '(s', changed) := sweep s in
      if changed then while_changed fuel' sweep s' else s'
  end.

Definition phase1_body (to_remove : gset string) (entry : string * span)
  : gset string :=
  let '(name, _) := entry in
  if bool_decide (name ∈ KEEP_FUNCTIONS) then to_remove
  else if is_explicitly_gui_function name then to_remove ∪ {[name]}
  else to_remove.

Definition phase1 (fm : func_map) : gset string :=
  foldl phase1_body ∅ fm.

Definition phase2_body (lines : list string) (fm : func_map)
    (acc : gset string * bool) (entry : string * span) : gset string * bool :=
  let '(to_remove, changed) := acc in
  let '(name, (start, end_, is_static)) := entry in
  if bool_decide (name ∈ to_remove) || bool_decide (name ∈ KEEP_FUNCTIONS)
     || negb is_static
  then acc
  else if negb (function_body_has_gui_tokens (body_of lines start end_)) then acc
  else if negb (has_external_ref name lines fm to_remove)
  then (to_remove ∪ {[name]}, true)
  else acc.

Definition phase2 (lines : list string) (fm : func_map) (to_remove : gset string)
  : gset string :=
  while_changed (S (length fm))
    (λ s, foldl (phase2_body lines fm) (s, false) fm) to_remove.

Definition remaining_body (lines : list string) (to_remove : gset string)
    (remaining_gui : gset string) (entry : string * span) : gset string :=
  let '(name, (start, end_, is_static)) := entry in
  if bool_decide (name ∈ to_remove) || bool_decide (name ∈ KEEP_FUNCTIONS)
     || negb is_static
  then remaining_gui
  else if function_body_has_gui_tokens (body_of lines start end_)
  then remaining_gui ∪ {[name]}
  else remaining_gui.

Definition phase3 (lines : list string) (fm : func_map) (to_remove : gset string)
  : gset string :=
  let remaining_gui := foldl (remaining_body lines to_remove) ∅ fm in
  if bool_decide (remaining_gui = ∅) then to_remove
  else
    let combined_skip := to_remove ∪ remaining_gui in
    let can_remove :=
      filter (λ name, has_external_ref name lines fm combined_skip = false)
             remaining_gui in
    if bool_decide (can_remove = remaining_gui)
    then to_remove ∪ can_remove
    else to_remove ∪ can_remove.

Definition phase4_body (lines : list string) (fm : func_map)
    (acc : gset string * bool) (entry : string * span) : gset string * bool :=
  let '(to_remove, changed) := acc in
  let '(name, (start, end_, is_static)) := entry in
  if bool_decide (name ∈ to_remove) || bool_decide (name ∈ KEEP_FUNCTIONS)
     || negb is_static
  then acc
  else if negb (has_external_ref name lines fm to_remove)
  then (to_remove ∪ {[name]}, true)
  else acc.

Definition phase4 (lines : list string) (fm : func_map) (to_remove : gset string)
  : gset string :=
  while_changed (S (length fm))
    (λ s, foldl (phase4_body lines fm) (s, false) fm) to_remove.

Definition find_all_functions_to_remove (lines : list string) (fm : func_map)
  : gset string :=
  phase4 lines fm (phase3 lines fm (phase2 lines fm (phase1 fm))).

(** ** Stripping gui_data refs in kept functions *)

(** Group 1 is the indentation, group 2 the bound variable. *)
Definition GUI_DATA_ASSIGN_RE : re :=
  (Group 1 sp0 ⋅ Opt (Lit "const" ⋅ sp1)
   ⋅ ((Lit "dt_iop_" ⋅ w1 ⋅ Lit "_gui_data_t") ∥ Lit "void") ⋅ sp0 ⋅ Lit "*" ⋅ sp0
   ⋅ Opt (Lit "const" ⋅ sp1) ⋅ Group 2 w1 ⋅ sp0 ⋅ Lit "=" ⋅ sp0
   ⋅ Opt (Lit "(" ⋅ Star (NoneOf [CChr ")"]) ⋅ Lit ")" ⋅ sp0)
   ⋅ Lit "self->gui_data" ⋅ sp0 ⋅ Lit ";")%re.

Definition GUI_DATA_FIELD_RE : re :=
  (sp0 ⋅ Lit "((dt_iop_" ⋅ w1 ⋅ Lit "_gui_data_t" ⋅ sp0 ⋅ Lit "*)" ⋅ sp0
   ⋅ Lit "self->gui_data)->" ⋅ w1 ⋅ sp0 ⋅ Lit "=" ⋅ Star Any ⋅ Lit ";"
   ⋅ sp0 ⋅ Eos)%re.

Definition if_open (cond : string) : re :=     (* if\s*\(\s*cond *)
  (Lit "if" ⋅ sp0 ⋅ Lit "(" ⋅ sp0 ⋅ Lit cond)%re.

Definition GUI_IF_ONELINE_RE : re :=
  (sp0 ⋅ if_open "self->gui_data" ⋅ sp0 ⋅ Lit ")" ⋅ sp0
   ⋅ Lit "{" ⋅ Star (NoneOf [CChr "}"]) ⋅ Lit "}" ⋅ sp0 ⋅ Eos)%re.

Definition GUI_IF_RE : re :=
  (sp0 ⋅ if_open "self->gui_data" ⋅ sp0 ⋅ Lit ")")%re.

(** Group 1 is the indentation of the [if]. *)
Definition var_if_re (gui_data_var : string) : re :=
  (Group 1 sp0 ⋅ if_open gui_data_var ⋅ sp0 ⋅ Lit ")")%re.

Definition ELSE_RE : re := (sp0 ⋅ Lit "else" ⋅ Wordb)%re.

Definition var_and_re (gui_data_var : string) : re :=
  (sp0 ⋅ if_open gui_data_var ⋅ sp0 ⋅ Lit "&&")%re.

Definition and_var_re (gui_data_var : string) : re :=
  (sp0 ⋅ Lit "if" ⋅ sp0 ⋅ Lit "(" ⋅ Star Any ⋅ Lit "&&" ⋅ sp0
   ⋅ Lit gui_data_var ⋅ Wordb)%re.

Definition var_field_re (gui_data_var : string) : re :=
  (sp0 ⋅ Lit gui_data_var ⋅ Lit "->" ⋅ w1 ⋅ sp0 ⋅ Lit "=" ⋅ Star Any ⋅ Lit ";"
   ⋅ sp0 ⋅ Eos)%re.

(** [find_brace_block_end(lines, i)] when it is found and [<= func_end]. *)
Definition block_within (lines : list string) (i func_end : nat) : option nat :=
  match find_brace_block_end lines i with
  | Some block_end => if bool_decide (block_end ≤ func_end) then Some block_end else None
  | None => None
  end.

(** [while next_i <= func_end and lines[next_i].strip() == "": next_i += 1] *)
Fixpoint skip_blank (ls : list string) (next_i : nat) : nat :=
  match ls with
  | l :: ls' =>
      if String.eqb (strip l) EmptyString then skip_blank ls' (S next_i) else next_i
  | [] => next_i
  end.

(** [while else_open <= else_block_end: if "{" in lines[else_open]: break; ...] *)
Fixpoint find_open (ls : list string) (else_open : nat) : nat :=
  match ls with
  | l :: ls' => if contains "{" l then else_open else find_open ls' (S else_open)
  | [] => else_open
  end.

Definition dedent (indent eline : string) : string :=
  if startswith (indent +:+ "    ") eline
  then indent +:+ drop_str (String.length indent + 4) eline
  else if startswith (indent +:+ "  ") eline
  then indent +:+ drop_str (String.length indent + 2) eline
  else eline.

(** The [if g_if_match:] branch.  [Some] is a [continue] with the next index
    and the lines appended to [result]; [None] falls through. *)
Definition strip_var_if (lines : list string) (func_end i : nat) (indent : string)
  : option (nat * list string) :=
  match block_within lines i func_end with
  | Some if_block_end =>
      let next_i :=
        skip_blank (slice lines (S if_block_end) func_end) (S if_block_end) in
      let has_else :=
        bool_decide (next_i ≤ func_end) && matches ELSE_RE (line_at lines next_i) in
      match (if has_else then block_within lines next_i func_end else None) with
      | Some else_block_end =>
          let else_open :=
            find_open (slice lines next_i else_block_end) next_i in
          Some (S else_block_end,
                dedent indent <$> slice lines (S else_open) (else_block_end - 1))
      | None => Some (S if_block_end, [])
      end
  | None => None
  end.

(** The [if gui_data_var:] part of the loop body. *)
Definition strip_bound (lines : list string) (func_end i : nat)
    (gui_data_var line : string) : option (nat * list string) :=
  match
    match re_match (var_if_re gui_data_var) line with
    | Some g_if_match => strip_var_if lines func_end i (group 1 g_if_match)
    | None => None
    end
  with
  | Some r => Some r
  | None =>
      match
        (if matches (var_and_re gui_data_var) line
         then block_within lines i func_end else None)
      with
      | Some block_end => Some (S block_end, [])
      | None =>
          match
            (if matches (and_var_re gui_data_var) line
             then block_within lines i func_end else None)
          with
          | Some block_end => Some (S block_end, [])
          | None =>
              if matches (var_field_re gui_data_var) line
              then Some (S i, [])
              else None
          end
      end
  end.

(** The loop state is [(gui_data_var, result)]. *)
Definition strip_state : Type := option string * list string.

Definition strip_step (lines : list string) (func_end : nat) (i : nat)
    (st : strip_state) : nat * strip_state :=
  let '(gui_data_var, result) := st in
  let line := line_at lines i in
  match re_match GUI_DATA_ASSIGN_RE line with
  | Some gui_data_assign => (S i, (Some (group 2 gui_data_assign), result))
  | None =>
      if matches GUI_DATA_FIELD_RE line then (S i, st)
      else if matches GUI_IF_ONELINE_RE line then (S i, st)
      else
        match (if matches GUI_IF_RE line then block_within lines i func_end else None) with
        | Some block_end => (S block_end, st)
        | None =>
            match
              match gui_data_var with
              | Some v => strip_bound lines func_end i v line
              | None => None
              end
            with
            | Some (i', added) => (i', (gui_data_var, result ++ added))
            | None => (S i, (gui_data_var, result ++ [line]))
            end
        end
  end.

Definition strip_gui_data_in_function (lines : list string)
    (func_start func_end : nat) : list string :=
  snd (index_loop (strip_step lines func_end) (S func_end)
         (S func_end - func_start) func_start (None, [])).

(** ** Forward declaration cleanup *)

Fixpoint remove_forward_declarations (lines : list string)
    (removed_names : gset string) : list string :=
  match lines with
  | [] => []
  | line :: rest =>
      match re_match FORWARD_DECL_RE (strip line) with
      | Some m =>
          if bool_decide (group 1 m ∈ removed_names)
          then remove_forward_declarations rest removed_names
          else line :: remove_forward_declarations rest removed_names
      | None => line :: remove_forward_declarations rest removed_names
      end
  end.

(** ** Main stripping logic *)

(** Pass 2: the [if name and name in to_remove and name not in KEEP_FUNCTIONS]
    test; [Some end] when the block is skipped. *)
Definition removed_block (lines : list string) (to_remove : gset string)
    (i : nat) : option nat :=
  match get_function_name (line_at lines i) with
  | Some (name, _) =>
      if bool_decide (name ∈ to_remove) && negb (bool_decide (name ∈ KEEP_FUNCTIONS))
      then if negb (is_forward_declaration (line_at lines i))
           then find_brace_block_end lines i
           else None
      else None
  | None => None
  end.

Definition commented_gui_include (line : string) : bool :=
  let stripped := strip line in
  startswith "//" stripped && contains "#include" stripped
  && is_gui_include (strip (lstrip_char "/" stripped)).

Definition pass2_step (lines : list string) (to_remove : gset string) (i : nat)
    (output_lines : list string) : nat * list string :=
  let line := line_at lines i in
  if is_gui_include line then (S i, output_lines)
  else if commented_gui_include line then (S i, output_lines)
  else
    match (if is_gui_data_struct_start line then find_brace_block_end lines i else None) with
    | Some end_ => (S end_, output_lines)
    | None =>
        match removed_block lines to_remove i with
        | Some end_ => (S end_, output_lines)
        | None => (S i, output_lines ++ [line])
        end
    end.

Definition pass2 (lines : list string) (to_remove : gset string) : list string :=
  index_loop (pass2_step lines to_remove) (length lines) (length lines) 0 [].

(** Pass 4 *)
Definition needs_strip (output_lines : list string) (entry : string * span) : bool :=
  let '(_, (start, end_, _)) := entry in
  let body := body_of output_lines start end_ in
  contains "gui_data" body || contains "_gui_data_t" body.

(** [funcs_to_strip.sort(key=lambda x: x[1], reverse=True)] *)
Fixpoint insert_desc (x : string * span) (l : list (string * span))
  : list (string * span) :=
  match l with
  | [] => [x]
  | y :: l' =>
      if (y.2.1.1 <=? x.2.1.1)%nat then x :: l else y :: insert_desc x l'
  end.

Definition sort_desc (l : list (string * span)) : list (string * span) :=
  foldr insert_desc [] l.

(** [output_lines[start : end + 1] = stripped_body] *)
Definition splice (output_lines : list string) (start end_ : nat)
    (stripped_body : list string) : list string :=
  take start output_lines ++ stripped_body ++ drop (S end_) output_lines.

Definition pass4_body (output_lines : list string) (entry : string * span)
  : list string :=
  let '(_, (start, end_, _)) := entry in
  splice output_lines start end_ (strip_gui_data_in_function output_lines start end_).

Definition pass4 (output_lines : list string) : list string :=
  let kept_func_map := build_function_map output_lines in
  let funcs_to_strip := filter (λ e, needs_strip output_lines e = true) kept_func_map in
  foldl pass4_body output_lines (sort_desc funcs_to_strip).

(** Pass 4b *)
Definition WIDGET_IF_RE : re :=
  (if_open "self->widget" ⋅ sp0 ⋅ Lit ")")%re.

Definition widget_if_line (stripped : string) : bool :=
  matches WIDGET_IF_RE stripped
  && (contains "gtk_stack" stripped || contains "gtk_widget" stripped).

Definition widget_call_line (stripped : string) : bool :=
  contains "self->widget" stripped
  && (contains "gtk_stack_" stripped || contains "gtk_widget_" stripped).

Fixpoint pass4b (output_lines : list string) : list string :=
  match output_lines with
  | [] => []
  | line :: rest =>
      let stripped := strip line in
      if widget_if_line stripped then EmptyString :: pass4b rest
      else if widget_call_line stripped then pass4b rest
      else line :: pass4b rest
  end.

(** Pass 5 *)
Definition pass5_body (output_lines : list string) (post_func_map : func_map)
    (acc : gset string * bool) (entry : string * span) : gset string * bool :=
  let '(post_orphans, changed) := acc in
  let '(name, (start, end_, is_static)) := entry in
  if bool_decide (name ∈ KEEP_FUNCTIONS) || bool_decide (name ∈ post_orphans)
  then acc
  else if negb (function_body_has_gui_tokens (body_of output_lines start end_))
  then acc
  else if negb (has_external_ref name output_lines post_func_map post_orphans)
  then (post_orphans ∪ {[name]}, true)
  else acc.

Definition find_post_orphans (output_lines : list string) : gset string :=
  let post_func_map := build_function_map output_lines in
  while_changed (S (length post_func_map))
    (λ s, foldl (pass5_body output_lines post_func_map) (s, false) post_func_map) ∅.

(** Pass 5: [name and name in post_orphans and not is_forward_declaration(...)] *)
Definition orphan_block (output_lines : list string) (post_orphans : gset string)
    (i : nat) : option nat :=
  match get_function_name (line_at output_lines i) with
  | Some (name, _) =>
      if bool_decide (name ∈ post_orphans)
         && negb (is_forward_declaration (line_at output_lines i))
      then find_brace_block_end output_lines i
      else None
  | None => None
  end.

Definition pass5_step (output_lines : list string) (post_orphans : gset string)
    (i : nat) (cleaned : list string) : nat * list string :=
  match orphan_block output_lines post_orphans i with
  | Some end_ => (S end_, cleaned)
  | None => (S i, cleaned ++ [line_at output_lines i])
  end.

Definition pass5 (output_lines : list string) (post_orphans : gset string)
  : list string :=
  if bool_decide (post_orphans = ∅) then output_lines
  else
    let cleaned :=
      index_loop (pass5_step output_lines post_orphans) (length output_lines)
        (length output_lines) 0 [] in
    remove_forward_declarations cleaned post_orphans.

(** Pass 6 *)
Definition STRAY_DECL_RE : re :=
  (Opt (Lit "const" ⋅ sp1) ⋅ Lit "dt_iop_" ⋅ w1 ⋅ Lit "_gui_data_t" ⋅ sp0 ⋅ Lit "*")%re.

Definition STRAY_CAST_RE : re :=
  (Lit "((dt_iop_" ⋅ w1 ⋅ Lit "_gui_data_t" ⋅ sp0 ⋅ Lit "*)" ⋅ sp0
   ⋅ Lit "self->gui_data)")%re.

Definition stray_gui_data_line (line : string) : bool :=
  let stripped := strip line in
  (matches STRAY_DECL_RE stripped && contains "self->gui_data" stripped)
  || matches STRAY_CAST_RE stripped.

Fixpoint pass6 (output_lines : list string) : list string :=
  match output_lines with
  | [] => []
  | line :: rest =>
      if stray_gui_data_line line then pass6 rest else line :: pass6 rest
  end.

(** Pass 7 *)
Fixpoint pass7 (output_lines : list string) (blank_count : nat) : list string :=
  match output_lines with
  | [] => []
  | line :: rest =>
      if String.eqb (strip line) EmptyString
      then if bool_decide (S blank_count ≤ 2)
           then line :: pass7 rest (S blank_count)
           else pass7 rest (S blank_count)
      else line :: pass7 rest 0
  end.

(** What [strip_iop] computes from the lines it read: the lines it writes and
    the set it reports. *)
Record stripped : Type := Stripped {
  final_lines : list string;
  removed : gset string
}.

Definition strip_lines (lines : list string) : stripped :=
  let func_map := build_function_map lines in
  let to_remove := find_all_functions_to_remove lines func_map in
  let output2 := pass2 lines to_remove in
  let output3 := remove_forward_declarations output2 to_remove in
  let output4 := pass4 output3 in
  let output4b := pass4b output4 in
  let post_orphans := find_post_orphans output4b in
  let output5 := pass5 output4b post_orphans in
  Stripped (pass7 (pass6 output5) 0) (to_remove ∪ post_orphans).

(** ** Command line

    The file system maps the paths of regular files to their text.  Reading
    and writing are taken to succeed, on a platform whose line separator is
    the newline character. *)











(** ** Properties read from the specification, and sample inputs *)

(** The lines [readlines] returns for a text given line by line. *)
Definition source (ls : list string) : list string := (λ l, l +:+ nl) <$> ls.


Definition protected_with_gui_block : list string :=
  source [ "void process(void)";
           "{";
           "  if(self->gui_data)";
           "  {";
           "    dt_dev_add_history_item(x);";
           "  }";
           "  y = 1;";
           "}" ].

(** "A function definition whose block never closes is recorded in neither
    the FunctionMap nor the RemovalSet, and all of its lines appear unchanged
    in the output." *)
Definition fail_open (lines : list string) : Prop :=
  ∀ i name is_static,
    i < length lines →
    get_function_name (line_at lines i) = Some (name, is_static) →
    find_brace_block_end lines i = None →
    dict_get name (build_function_map lines) = None
    ∧ (name ∉ removed (strip_lines lines))
    ∧ ∀ l, l ∈ drop i lines → l ∈ final_lines (strip_lines lines).

Definition unclosed_with_widget_line : list string :=
  source [ "static void foo(void)";
           "{";
           "  if(self->widget) { gtk_widget_show(w);";
           "  GtkWidget *w;";
           "}" ].

Definition raw_if_else : list string :=
  source [ "void process(void)";
           "{";
           "  if(self->gui_data)";
           "  {";
           "    a();";
           "  }";
           "  else";
           "  {";
           "    b();";
           "  }";
           "}" ].

Definition bound_if_else : list string :=
  source [ "void process(void)";
           "{";
           "  dt_iop_x_gui_data_t *g = self->gui_data;";
           "  if(g)";
           "  {";
           "    a();";
           "  }";
           "  else";
           "  {";
           "    b();";
           "  }";
           "}" ].




Definition two_line_prototype : list string :=
  source [ "static void gui_helper(int a, int b)";
           "{";
           "}";
           "static void gui_helper(int a,";
           "                       int b);" ].

Definition two_line_prototype_first : list string :=
  source [ "static void gui_helper(int a,";
           "                       int b);";
           "void process(void)";
           "{";
           "}";
           "static void gui_helper(int a, int b)";
           "{";
           "}" ].

Definition helper_cascade : list string :=
  source [ "static void helper(void)";
           "{";
           "  GtkWidget *w;";
           "}";
           "void gui_update(void)";
           "{";
           "  helper();";
           "}";
           "void process(void)";
           "{";
           "}" ].

Definition protected_with_widget_lines : list string :=
  source [ "void process(void)";
           "{";
           "  if(self->widget) gtk_stack_set_visible_child_name(GTK_STACK(self->widget), x);";
           "  gtk_widget_show(self->widget);";
           "  y = 1;";
           "}" ].

(** ** Vocabulary of the proofs *)

(** The names the classifier may ever add: keys of the function map that
    are not protected. *)
Definition removable (fm : func_map) : gset string :=
  list_to_set fm.*1 ∖ KEEP_FUNCTIONS.

(** The common shape of the [for] loops of phases 2 and 4 and of the orphan
    sweep.  [ext name skip] says whether [name] is referenced outside the
    spans in [skip]; [cand entry] gathers the tests that do not read the
    set. *)
Definition sweep_body (ext : string → gset string → bool)
    (cand : string * span → bool)
    (acc : gset string * bool) (e : string * span) : gset string * bool :=
  if bool_decide (e.1 ∈ acc.1) || negb (cand e) then acc
  else if negb (ext e.1 acc.1) then (acc.1 ∪ {[e.1]}, true)
  else acc.

Definition sweep (ext : string → gset string → bool) (cand : string * span → bool)
    (l : list (string * span)) (s : gset string) : gset string * bool :=
  foldl (sweep_body ext cand) (s, false) l.

(** [T] has nothing left to add. *)
Definition closed (ext : string → gset string → bool) (cand : string * span → bool)
    (l : list (string * span)) (T : gset string) : Prop :=
  ∀ e, e ∈ l → cand e = true → ext e.1 T = false → e.1 ∈ T.

(** The loop bodies of phases 2 and 4 are sweep bodies. *)
Definition cand2 (lines : list string) (e : string * span) : bool :=
  negb (bool_decide (e.1 ∈ KEEP_FUNCTIONS)) && e.2.2
  && function_body_has_gui_tokens (body_of lines e.2.1.1 e.2.1.2).

Definition cand4 (e : string * span) : bool :=
  negb (bool_decide (e.1 ∈ KEEP_FUNCTIONS)) && e.2.2.

Definition cand5 (lines : list string) (e : string * span) : bool :=
  negb (bool_decide (e.1 ∈ KEEP_FUNCTIONS))
  && function_body_has_gui_tokens (body_of lines e.2.1.1 e.2.1.2).

(** Every entry was recorded at a definition line whose block closes. *)
Definition recorded (lines : list string) (e : string * span) : Prop :=
  get_function_name (line_at lines e.2.1.1) = Some (e.1, e.2.2)
  ∧ find_brace_block_end lines e.2.1.1 = Some e.2.1.2.

(** [reach r st st']: [r] can match from [st] and leave the cursor at [st']. *)
Fixpoint reach (r : re) (st st' : mstate) : Prop :=
  match r with
  | Lit l => step_lit ascii_eqb l st = Some st'
  | LitI l => step_lit eq_nocase l st = Some st'
  | Any => step_class (λ c, negb (ascii_eqb c newline)) st = Some st'
  | Word => step_class is_word st = Some st'
  | Space => step_class is_space st = Some st'
  | OneOf items => step_class (λ c, existsb (citem_has c) items) st = Some st'
  | NoneOf items =>
      step_class (λ c, negb (existsb (citem_has c) items)) st = Some st'
  | Seq r1 r2 => ∃ m, reach r1 st m ∧ reach r2 m st'
  | Alt r1 r2 => reach r1 st st' ∨ reach r2 st st'
  | Star r1 => rtc (reach r1) st st'
  | Plus r1 => ∃ m, reach r1 st m ∧ rtc (reach r1) m st'
  | Opt r1 => reach r1 st st' ∨ st' = st
  | Group n r1 => ∃ m, reach r1 st m ∧ st' = close_group n st m
  | Bos => is_bos st = true ∧ st' = st
  | Eos => at_end st = true ∧ st' = st
  | Wordb => xorb (word_before st) (word_after st) = true ∧ st' = st
  end.

Fixpoint groupless (r : re) : bool :=
  match r with
  | Seq r1 r2 | Alt r1 r2 => groupless r1 && groupless r2
  | Star r1 | Plus r1 | Opt r1 => groupless r1
  | Group _ _ => false
  | _ => true
  end.

Fixpoint all_space (s : string) : bool :=
  match s with
  | EmptyString => true
  | String c s' => is_space c && all_space s'
  end.

(** Every pass after the assembly deletes lines, blanks them, or moves the
    body of an [else] one level out; so the text of a line of [output], white
    space at its ends apart, is blank or the text of a line of [input]. *)
Definition texts_from (input output : list string) : Prop :=
  ∀ l, l ∈ output →
    strip l = EmptyString ∨ ∃ l0, l0 ∈ input ∧ strip l = strip l0.


(** Occurrences of a character. *)
Fixpoint count_char (c : ascii) (s : string) : Z :=
  match s with
  | EmptyString => 0%Z
  | String x s' => ((if ascii_eqb x c then 1 else 0) + count_char c s')%Z
  end.

(** The text [find_brace_block_end] scans from line [i]: the lines without
    their literals and line comments, one after the other. *)
Definition scanned_text (lines : list string) (i : nat) : string :=
  foldr String.append EmptyString (code_part <$> drop i lines).

(** The block opened in [text] closes: some closing brace comes after at
    least one opening brace and balances the braces before it. *)
Definition closes_in (text : string) : Prop :=
  ∃ p q, text = p +:+ String "}" q
         ∧ (1 ≤ count_char "{" p)%Z
         ∧ (count_char "{" p = count_char "}" p + 1)%Z.

(** Every text [r] matches contains [lit]: a sufficient test on the syntax. *)
Fixpoint must_contain (lit : string) (r : re) : bool :=
  match r with
  | Lit l => contains lit l
  | Seq r1 r2 => must_contain lit r1 || must_contain lit r2
  | Alt r1 r2 => must_contain lit r1 && must_contain lit r2
  | Plus r1 | Group _ r1 => must_contain lit r1
  | _ => false
  end.



(** A line Pass 7 counts as blank. *)
Definition blank (line : string) : bool := String.eqb (strip line) EmptyString.

(** Two spans with no line in common. *)
Definition apart (a b : span) : Prop := a.1.2 < b.1.1 ∨ b.1.2 < a.1.1.

(** The test of Pass 2 for an include line, plain or commented out. *)
Definition gui_include_line (line : string) : bool :=
  is_gui_include line || commented_gui_include line.

(** * Proofs *)

(** * Basic facts *)

Lemma ascii_eqb_eq a b : ascii_eqb a b = true ↔ a = b.
Proof.
  unfold ascii_eqb, code. rewrite N.eqb_eq. split; [|congruence].
  intros H. rewrite <- (ascii_N_embedding a), <- (ascii_N_embedding b).
  congruence.
Qed.

(** ** Index loops *)

Section IndexLoopFacts.
Context {St : Type} (body : nat → St → nat * St) (bound : nat).

(** A property of the state kept by every iteration holds at the exit. *)
Lemma index_loop_inv (Q : St → Prop) :
  (∀ i s, i < bound → Q s → Q (body i s).2) →
  ∀ fuel i s, Q s → Q (index_loop body bound fuel i s).
Proof.
  intros Hstep fuel. induction fuel as [|fuel IH]; intros i s Hs; simpl; [done|].
  destruct (Nat.ltb_spec i bound) as [Hlt|]; [|done].
  specialize (Hstep i s Hlt Hs). destruct (body i s) as [i' s']. by apply IH.
Qed.

(** When every iteration moves the index forward, [bound - i] iterations
    reach the exit: more fuel changes nothing, so the fuel in the
    definitions below models the [while] loop exactly. *)
Lemma index_loop_fuel :
  (∀ i s, i < bound → i < (body i s).1) →
  ∀ fuel extra i s, bound - i ≤ fuel →
    index_loop body bound (fuel + extra) i s = index_loop body bound fuel i s.
Proof.
  intros Hadv fuel. induction fuel as [|fuel IH]; intros extra i s Hle.
  - destruct extra; simpl; [done|].
    destruct (Nat.ltb_spec i bound); [lia|done].
  - simpl. destruct (Nat.ltb_spec i bound) as [Hlt|]; [|done].
    specialize (Hadv i s Hlt). destruct (body i s) as [i' s']; simpl in *.
    apply IH. lia.
Qed.
End IndexLoopFacts.

(** ** Brace blocks *)

Lemma block_end_from_bounds ls i depth found_open e :
  block_end_from ls i depth found_open = Some e → i ≤ e < i + length ls.
Proof.
  revert i depth found_open.
  induction ls as [|l ls IH]; intros i depth found_open; simpl; [done|].
  destruct (scan_braces _ _ _) as [[]|[d f]].
  - intros [= <-]. lia.
  - intros H%IH. lia.
Qed.

Lemma find_brace_block_end_bounds lines i e :
  find_brace_block_end lines i = Some e → i ≤ e < length lines.
Proof.
  unfold find_brace_block_end. intros H%block_end_from_bounds.
  rewrite length_drop in H. lia.
Qed.

(** ** Dictionaries *)

Lemma dict_get_Some k v (d : func_map) : dict_get k d = Some v → (k, v) ∈ d.
Proof.
  induction d as [|[k' v'] d IH]; simpl; [done|].
  destruct (String.eqb_spec k k') as [->|].
  - intros [= ->]. left.
  - intros H. right. by apply IH.
Qed.

Lemma dict_get_None k (d : func_map) : dict_get k d = None ↔ k ∉ d.*1.
Proof.
  induction d as [|[k' v'] d IH]; simpl.
  - split; [set_solver|done].
  - destruct (String.eqb_spec k k') as [->|Hne].
    + split; [done|]. intros []. left.
    + rewrite IH, not_elem_of_cons. tauto.
Qed.

Lemma dict_set_elem k v (d : func_map) e :
  e ∈ dict_set k v d → e = (k, v) ∨ e ∈ d.
Proof.
  induction d as [|[k' v'] d IH]; simpl.
  - rewrite list_elem_of_singleton. auto.
  - destruct (String.eqb k k'); rewrite !elem_of_cons; intuition.
Qed.

Lemma dict_set_keys_NoDup k v (d : func_map) :
  NoDup d.*1 → NoDup (dict_set k v d).*1.
Proof.
  induction d as [|[k' v'] d IH]; simpl; intros Hnd.
  - apply NoDup_singleton.
  - inversion_clear Hnd as [|?? Hk' Hd]. destruct (String.eqb_spec k k') as [->|Hne]; simpl.
    + by constructor.
    + constructor; [|by apply IH].
      rewrite list_elem_of_fmap. intros [[k2 v2] [Heq Hin]]. simpl in Heq. subst k2.
      apply dict_set_elem in Hin as [[= -> ->]|Hin]; [done|].
      apply Hk'. rewrite list_elem_of_fmap. by exists (k', v2).
Qed.

(** A dictionary whose keys are listed once is looked up the same way in
    whatever order its items stand. *)
Lemma dict_get_elem k v (d : func_map) :
  NoDup d.*1 → (k, v) ∈ d → dict_get k d = Some v.
Proof.
  induction d as [|[k' v'] d IH]; simpl; intros Hnd Hin; [by apply elem_of_nil in Hin|].
  inversion_clear Hnd as [|?? Hk' Hd].
  apply elem_of_cons in Hin as [[= -> ->]|Hin].
  - by rewrite String.eqb_refl.
  - destruct (String.eqb_spec k k') as [->|Hne]; [|by apply IH].
    exfalso. apply Hk'. rewrite list_elem_of_fmap. by exists (k', v).
Qed.

Lemma dict_get_perm k (d1 d2 : func_map) :
  NoDup d1.*1 → d1 ≡ₚ d2 → dict_get k d1 = dict_get k d2.
Proof.
  intros Hnd Hp.
  assert (Hnd2 : NoDup d2.*1) by (by rewrite <- Hp).
  destruct (dict_get k d1) as [v|] eqn:H1.
  - symmetry. apply dict_get_elem; [done|]. rewrite <- Hp. by apply dict_get_Some.
  - symmetry. apply dict_get_None. rewrite <- Hp. by apply dict_get_None.
Qed.

(** ** The block matcher against brace counts *)

Lemma scan_braces_append s1 s2 depth found_open :
  scan_braces (s1 +:+ s2) depth found_open
  = match scan_braces s1 depth found_open with
    | inl u => inl u
    | inr (depth', found_open') => scan_braces s2 depth' found_open'
    end.
Proof.
  revert depth found_open. induction s1 as [|c s1 IH]; intros d f; [done|].
  change (String c s1 +:+ s2) with (String c (s1 +:+ s2)). simpl.
  destruct (ascii_eqb c "{"); [apply IH|].
  destruct (ascii_eqb c "}"); [|apply IH].
  destruct (f && _); [done|apply IH].
Qed.

(** The matcher stops at a line exactly when the scan of the whole text
    stops. *)
Lemma block_end_from_text ls i depth found_open :
  block_end_from ls i depth found_open = None
  ↔ scan_braces (foldr String.append EmptyString (code_part <$> ls)) depth found_open
    ≠ inl tt.
Proof.
  revert i depth found_open. induction ls as [|l ls IH]; intros i d f; simpl.
  - split; [done|done].
  - rewrite scan_braces_append.
    destruct (scan_braces (code_part l) d f) as [[]|[d' f']]; [|apply IH].
    split; [done|]. intros H. by destruct H.
Qed.

(** The scan stops exactly when the braces close, counting from the depth
    and the flag it starts with. *)
Lemma scan_braces_closes s depth found_open :
  scan_braces s depth found_open = inl tt
  ↔ ∃ p q, s = p +:+ String "}" q
           ∧ (found_open = true ∨ 1 ≤ count_char "{" p)%Z
           ∧ (depth + count_char "{" p = count_char "}" p + 1)%Z.
Proof.
  revert depth found_open. induction s as [|c s IH]; intros d f.
  - split; [done|]. intros ([|? ?] & q & Heq & _); done.
  - simpl. destruct (ascii_eqb c "{") eqn:Hopen.
    + apply ascii_eqb_eq in Hopen as ->. rewrite IH. split.
      * intros (p & q & -> & _ & Hbal). exists (String "{" p), q.
        split; [done|]. simpl.
        pose proof (count_nonneg := I). split; [right|]; simpl.
        -- assert (0 ≤ count_char "{" p)%Z; [|lia].
           clear. induction p as [|x p IHp]; simpl; [done|].
           destruct (ascii_eqb x "{"); lia.
        -- lia.
      * intros ([|x p] & q & Heq & Hfound & Hbal); [done|].
        change (String x p +:+ String "}" q) with (String x (p +:+ String "}" q)) in Heq.
        injection Heq as <- ->. simpl in Hbal.
        exists p, q. split; [done|]. split; [by left|]. lia.
    + destruct (ascii_eqb c "}") eqn:Hclose.
      * apply ascii_eqb_eq in Hclose as ->.
        destruct (f && (d - 1 =? 0)%Z) eqn:Hstop.
        -- split; [intros _|done]. apply andb_prop in Hstop as [-> Hd%Z.eqb_eq].
           exists EmptyString, s. split; [done|]. split; [by left|]. simpl. lia.
        -- rewrite IH. split.
           ++ intros (p & q & -> & Hfound & Hbal). exists (String "}" p), q.
              split; [done|]. simpl. split; [done|lia].
           ++ intros ([|x p] & q & Heq & Hfound & Hbal).
              ** simpl in *. destruct Hfound as [->|?]; [|lia].
                 simpl in Hstop. apply Z.eqb_neq in Hstop. lia.
              ** change (String x p +:+ String "}" q)
                   with (String x (p +:+ String "}" q)) in Heq.
                 injection Heq as <- ->. simpl in *.
                 exists p, q. split; [done|]. split; [done|lia].
      * rewrite IH. split.
        -- intros (p & q & -> & Hfound & Hbal). exists (String c p), q.
           split; [done|]. simpl. rewrite Hopen, Hclose. split; [done|lia].
        -- intros ([|x p] & q & Heq & Hfound & Hbal).
           ++ simpl in Heq. injection Heq as -> _. by vm_compute in Hclose.
           ++ change (String x p +:+ String "}" q)
                with (String x (p +:+ String "}" q)) in Heq.
              injection Heq as <- ->. simpl in *. rewrite Hopen, Hclose in *.
              exists p, q. split; [done|]. split; [done|lia].
Qed.

(** [find_brace_block_end] reports "not found" exactly when the block never
    closes. *)
Lemma find_brace_block_end_None lines i :
  find_brace_block_end lines i = None ↔ ¬ closes_in (scanned_text lines i).
Proof.
  unfold find_brace_block_end, scanned_text, closes_in.
  rewrite block_end_from_text.
  split.
  - intros Hscan (p & q & Heq & Hopen & Hbal). apply Hscan.
    apply scan_braces_closes. exists p, q. split; [done|]. split; [by right|lia].
  - intros Hno Hscan. apply Hno.
    apply scan_braces_closes in Hscan as (p & q & Heq & [?|Hopen] & Hbal); [done|].
    exists p, q. split; [done|]. split; [done|lia].
Qed.

(** * What a successful match tells *)

Lemma bind_Some_inv {A B} (o : option A) (k : A → option B) res :
  (x ← o; k x) = Some res → ∃ x, o = Some x ∧ k x = Some res.
Proof. destruct o as [x|]; [|done]. intros. by exists x. Qed.

Lemma orelse_Some_inv {A} (a b : option A) res :
  orelse a b = Some res → a = Some res ∨ b = Some res.
Proof. destruct a; simpl; auto. Qed.

Lemma guard_Some_inv {A} c (a : option A) res :
  guard c a = Some res → c = true ∧ a = Some res.
Proof. by destruct c. Qed.

Section Soundness.
Context {A : Type}.

Lemma star_loop_sound (r1 : re) (k : mstate → option A) res :
  (∀ (k : mstate → option A) st res,
      run r1 k st = Some res → ∃ st', reach r1 st st' ∧ k st' = Some res) →
  ∀ fuel st,
    (fix loop (fuel : nat) (st : mstate) {struct fuel} : option A :=
       match fuel with
       | O => k st
       | S fuel' =>
           orelse
             (run r1 (λ st',
                guard (String.length (rest st') <? String.length (rest st))%nat
                      (loop fuel' st')) st)
             (k st)
       end) fuel st = Some res →
    ∃ st', rtc (reach r1) st st' ∧ k st' = Some res.
Proof.
  intros IH1 fuel. induction fuel as [|fuel IH]; intros st H.
  - by exists st.
  - apply orelse_Some_inv in H as [H|H]; [|by exists st].
    apply IH1 in H as (m & Hm & H).
    apply guard_Some_inv in H as [_ H].
    apply IH in H as (st' & Hst' & H).
    exists st'. split; [by eapply rtc_l|done].
Qed.

Lemma run_sound (r : re) :
  ∀ (k : mstate → option A) st res,
    run r k st = Some res → ∃ st', reach r st st' ∧ k st' = Some res.
Proof using Type.
  induction r as [l|l| | | |items|items|r1 IH1 r2 IH2|r1 IH1 r2 IH2
                  |r1 IH1|r1 IH1|r1 IH1|n r1 IH1| | | ];
    intros k st res H; simpl in H.
  1-7: by apply bind_Some_inv in H as (st' & ? & ?); exists st'.
  - apply IH1 in H as (m & Hm & H). apply IH2 in H as (st' & Hst' & H).
    exists st'. split; [by exists m|done].
  - apply orelse_Some_inv in H as [H|H].
    + apply IH1 in H as (st' & ? & ?). exists st'. split; [by left|done].
    + apply IH2 in H as (st' & ? & ?). exists st'. split; [by right|done].
  - by apply (star_loop_sound r1 k res IH1) in H.
  - apply IH1 in H as (m & Hm & H).
    apply (star_loop_sound r1 k res IH1) in H as (st' & ? & ?).
    exists st'. split; [by exists m|done].
  - apply orelse_Some_inv in H as [H|H].
    + apply IH1 in H as (st' & ? & ?). exists st'. split; [by left|done].
    + exists st. split; [by right|done].
  - apply IH1 in H as (m & Hm & H). exists (close_group n st m).
    split; [by exists m|done].
  - apply guard_Some_inv in H as [? ?]. by exists st.
  - apply guard_Some_inv in H as [? ?]. by exists st.
  - apply guard_Some_inv in H as [? ?]. by exists st.
Qed.
End Soundness.

Lemma re_match_sound r s c :
  re_match r s = Some c → ∃ st', reach r (start_state s) st' ∧ caps st' = c.
Proof.
  unfold re_match. intros (st' & Hr & [= <-])%run_sound. by exists st'.
Qed.

(** ** Patterns without groups leave the groups alone *)

Lemma step_class_caps p st st' : step_class p st = Some st' → caps st' = caps st.
Proof.
  unfold step_class. destruct (rest st) as [|c s]; [done|].
  destruct (p c); [|done]. by intros [= <-].
Qed.

Lemma step_lit_caps eq l st st' : step_lit eq l st = Some st' → caps st' = caps st.
Proof.
  revert st. induction l as [|a l IH]; intros st; simpl; [by intros [= <-]|].
  destruct (step_class (eq a) st) as [m|] eqn:Hm; [|done].
  intros H%IH. rewrite H. by eapply step_class_caps.
Qed.

Lemma reach_caps r st st' : groupless r = true → reach r st st' → caps st' = caps st.
Proof.
  revert st st'.
  induction r as [l|l| | | |items|items|r1 IH1 r2 IH2|r1 IH1 r2 IH2
                  |r1 IH1|r1 IH1|r1 IH1|n r1 IH1| | | ];
    intros st st' Hg H; simpl in *.
  - by eapply step_lit_caps.
  - by eapply step_lit_caps.
  - by eapply step_class_caps.
  - by eapply step_class_caps.
  - by eapply step_class_caps.
  - by eapply step_class_caps.
  - by eapply step_class_caps.
  - apply andb_prop in Hg as [Hg1 Hg2]. destruct H as (m & H1 & H2).
    rewrite (IH2 _ _ Hg2 H2). by apply IH1.
  - apply andb_prop in Hg as [Hg1 Hg2]. destruct H as [H|H]; auto.
  - induction H as [|a b c Hab _ IH]; [done|]. rewrite IH. by apply IH1.
  - destruct H as (m & H1 & H2). transitivity (caps m); [|by apply IH1].
    clear H1. induction H2 as [|a b c Hab _ IH]; [done|]. rewrite IH. by apply IH1.
  - destruct H as [H| ->]; auto.
  - done.
  - by destruct H as [_ ->].
  - by destruct H as [_ ->].
  - by destruct H as [_ ->].
Qed.

(** ** Leading white space *)

Lemma length_append (a b : string) :
  String.length (a +:+ b) = String.length a + String.length b.
Proof. induction a as [|x a IH]; simpl; [done|]. by f_equal. Qed.

Lemma take_str_append (a b : string) : take_str (String.length a) (a +:+ b) = a.
Proof. induction a as [|x a IH]; simpl; [by destruct b|]. by f_equal. Qed.

Lemma all_space_append a b : all_space a = true → all_space b = true →
  all_space (a +:+ b) = true.
Proof.
  induction a as [|x a IH]; simpl; [done|].
  intros [-> Ha]%andb_prop Hb. simpl. by apply IH.
Qed.

Lemma lstrip_space ws s : all_space ws = true → lstrip (ws +:+ s) = lstrip s.
Proof.
  induction ws as [|x ws IH]; simpl; [done|].
  intros [-> Hws]%andb_prop. by apply IH.
Qed.

Lemma strip_space ws s : all_space ws = true → strip (ws +:+ s) = strip s.
Proof. intros H. unfold strip. by rewrite lstrip_space. Qed.

Lemma startswith_split p s :
  startswith p s = true → s = p +:+ drop_str (String.length p) s.
Proof.
  revert s. induction p as [|a p IH]; intros s; simpl; [done|].
  destruct s as [|b s]; [done|].
  intros [Hab Hp]%andb_prop. apply ascii_eqb_eq in Hab as ->.
  change (String b s = String b (p +:+ drop_str (String.length p) s)).
  f_equal. by apply IH.
Qed.

(** A run of [\s*] eats white space only. *)
Lemma space_run st st' :
  rtc (reach Space) st st' →
  caps st' = caps st
  ∧ ∃ ws, all_space ws = true ∧ rest st = ws +:+ rest st'.
Proof.
  induction 1 as [st|a b c Hab _ (Hc & ws & Hws & Hrest)].
  - split; [done|]. by exists EmptyString.
  - simpl in Hab. unfold step_class in Hab.
    destruct (rest a) as [|x s] eqn:Ha; [done|].
    destruct (is_space x) eqn:Hx; [|done].
    injection Hab as <-. simpl in *. split; [done|].
    exists (String x ws). simpl. rewrite Hx, Hws. split; [done|]. by rewrite Hrest.
Qed.

(** The indentation captured by the [if (var)] pattern is white space. *)
Lemma var_if_indent v line c :
  re_match (var_if_re v) line = Some c → all_space (group 1 c) = true.
Proof.
  intros (st' & Hr & <-)%re_match_sound.
  unfold var_if_re in Hr. cbn [reach] in Hr.
  destruct Hr as (m & (m0 & Hm0 & ->) & Hrest).
  apply space_run in Hm0 as (_ & ws & Hws & Hline).
  assert (caps st' = caps (close_group 1 (start_state line) m0)) as ->.
  { revert Hrest. apply (reach_caps (if_open v ⋅ sp0 ⋅ Lit ")")%re). reflexivity. }
  simpl in *. rewrite Hline, length_append.
  replace (String.length ws + String.length (rest m0) - String.length (rest m0))
    with (String.length ws) by lia.
  by rewrite take_str_append.
Qed.

Lemma dedent_strip indent eline :
  all_space indent = true → strip (dedent indent eline) = strip eline.
Proof.
  intros Hi. unfold dedent.
  destruct (startswith (indent +:+ "    ") eline) eqn:H4.
  - apply startswith_split in H4. rewrite length_append in H4. simpl in H4.
    rewrite H4 at 2. rewrite !strip_space; [done| |done].
    by apply all_space_append.
  - destruct (startswith (indent +:+ "  ") eline) eqn:H2; [|done].
    apply startswith_split in H2. rewrite length_append in H2. simpl in H2.
    rewrite H2 at 2. rewrite !strip_space; [done| |done].
    by apply all_space_append.
Qed.

#[local] Opaque KEEP_FUNCTIONS GUI_FUNCTION_NAMES NOT_FUNCTIONS GUI_TOKENS.
#[local] Opaque re_match re_search.

(** * The removal set *)


Lemma removable_intro name sp (fm : func_map) :
  (name, sp) ∈ fm → name ∉ KEEP_FUNCTIONS → name ∈ removable fm.
Proof.
  intros Hin Hk. apply elem_of_difference. split; [|done].
  apply elem_of_list_to_set, list_elem_of_fmap. by exists (name, sp).
Qed.

Section Sweeps.
Context {B : Type} (body : gset string * bool → B → gset string * bool).
Context (l : list B) (K : gset string).
Hypothesis body_between :
  ∀ acc e, e ∈ l → acc.1 ⊆ (body acc e).1 ∧ (body acc e).1 ⊆ acc.1 ∪ K.

Lemma sweep_between acc :
  acc.1 ⊆ (foldl body acc l).1 ∧ (foldl body acc l).1 ⊆ acc.1 ∪ K.
Proof.
  revert acc body_between. induction l as [|e l' IH]; intros acc Hb; simpl.
  - set_solver.
  - destruct (Hb acc e) as [H1 H2]; [left|].
    destruct (IH (body acc e)) as [H3 H4].
    { intros acc' e' He'. apply Hb. by right. }
    set_solver.
Qed.

Lemma while_changed_between fuel s :
  s ⊆ while_changed fuel (λ s, foldl body (s, false) l) s
  ∧ while_changed fuel (λ s, foldl body (s, false) l) s ⊆ s ∪ K.
Proof.
  revert s. induction fuel as [|fuel IH]; intros s; simpl; [set_solver|].
  pose proof (sweep_between (s, false)) as [H1 H2]. simpl in *.
  destruct (foldl body (s, false) l) as [s' changed]; simpl in *.
  destruct changed; [|done].
  destruct (IH s') as [H3 H4]. set_solver.
Qed.
End Sweeps.

Lemma foldl_below {B} (f : gset string → B → gset string) (K : gset string) l acc :
  (∀ a e, e ∈ l → a ⊆ K → f a e ⊆ K) → acc ⊆ K → foldl f acc l ⊆ K.
Proof.
  revert acc. induction l as [|e l IH]; intros acc Hf Hacc; simpl; [done|].
  apply IH.
  - intros a e' He'. apply Hf. by right.
  - apply Hf; [left|done].
Qed.

Lemma add_below (a K : gset string) x : a ⊆ K → x ∈ K → a ∪ {[x]} ⊆ K.
Proof. intros Ha Hx. apply union_subseteq. split; [done|]. by apply singleton_subseteq_l. Qed.

Lemma phase1_between (fm : func_map) : phase1 fm ⊆ removable fm.
Proof.
  apply foldl_below; [|apply empty_subseteq].
  intros a [name sp] Hin Ha. unfold phase1_body.
  case_bool_decide as Hk; [done|].
  destruct (is_explicitly_gui_function name); [|done].
  apply add_below; [done|]. by eapply removable_intro.
Qed.

Lemma between_same (s K : gset string) : s ⊆ s ∧ s ⊆ s ∪ K.
Proof. set_solver. Qed.

Lemma between_add (s K : gset string) x :
  x ∈ K → s ⊆ s ∪ {[x]} ∧ s ∪ {[x]} ⊆ s ∪ K.
Proof. set_solver. Qed.

Lemma phase2_body_between lines (fm : func_map) acc e :
  e ∈ fm →
  acc.1 ⊆ (phase2_body lines fm acc e).1
  ∧ (phase2_body lines fm acc e).1 ⊆ acc.1 ∪ removable fm.
Proof.
  destruct acc as [s c], e as [name [[start end_] is_static]]. intros Hin.
  unfold phase2_body.
  case_bool_decide; [apply between_same|].
  case_bool_decide as Hk; [apply between_same|].
  destruct is_static; [|apply between_same].
  destruct (function_body_has_gui_tokens _); [|apply between_same].
  destruct (has_external_ref _ _ _ _); [apply between_same|].
  apply between_add. by eapply removable_intro.
Qed.

Lemma phase4_body_between lines (fm : func_map) acc e :
  e ∈ fm →
  acc.1 ⊆ (phase4_body lines fm acc e).1
  ∧ (phase4_body lines fm acc e).1 ⊆ acc.1 ∪ removable fm.
Proof.
  destruct acc as [s c], e as [name [[start end_] is_static]]. intros Hin.
  unfold phase4_body.
  case_bool_decide; [apply between_same|].
  case_bool_decide as Hk; [apply between_same|].
  destruct is_static; [|apply between_same].
  destruct (has_external_ref _ _ _ _); [apply between_same|].
  apply between_add. by eapply removable_intro.
Qed.


Lemma phase2_between lines fm s :
  s ⊆ phase2 lines fm s ∧ phase2 lines fm s ⊆ s ∪ removable fm.
Proof. apply while_changed_between. intros. by apply phase2_body_between. Qed.

Lemma phase4_between lines fm s :
  s ⊆ phase4 lines fm s ∧ phase4 lines fm s ⊆ s ∪ removable fm.
Proof. apply while_changed_between. intros. by apply phase4_body_between. Qed.

Lemma remaining_gui_sub lines to_remove (fm : func_map) :
  foldl (remaining_body lines to_remove) ∅ fm ⊆ removable fm.
Proof.
  apply foldl_below; [|apply empty_subseteq].
  intros a [name [[start end_] is_static]] Hin Ha. unfold remaining_body.
  case_bool_decide; simpl; [done|].
  case_bool_decide as Hk; simpl; [done|].
  destruct is_static; simpl; [|done].
  destruct (function_body_has_gui_tokens _); [|done].
  apply add_below; [done|]. by eapply removable_intro.
Qed.

Lemma between_union (s r c K : gset string) :
  c ⊆ r → r ⊆ K → s ⊆ s ∪ c ∧ s ∪ c ⊆ s ∪ K.
Proof. set_solver. Qed.

Lemma phase3_between lines fm s :
  s ⊆ phase3 lines fm s ∧ phase3 lines fm s ⊆ s ∪ removable fm.
Proof.
  unfold phase3. pose proof (remaining_gui_sub lines s fm) as Hr.
  revert Hr. generalize (foldl (remaining_body lines s) ∅ fm). intros rem Hr.
  case_bool_decide; [apply between_same|].
  assert (filter (λ name, has_external_ref name lines fm (s ∪ rem) = false) rem ⊆ rem) as Hf.
  { intros x Hx. by apply elem_of_filter in Hx as [_ ?]. }
  case_bool_decide; by eapply between_union.
Qed.

Lemma classifier_between lines fm :
  find_all_functions_to_remove lines fm ⊆ removable fm.
Proof.
  unfold find_all_functions_to_remove.
  pose proof (phase1_between fm) as H1.
  pose proof (phase2_between lines fm (phase1 fm)) as [_ H2].
  pose proof (phase3_between lines fm (phase2 lines fm (phase1 fm))) as [_ H3].
  pose proof (phase4_between lines fm
                (phase3 lines fm (phase2 lines fm (phase1 fm)))) as [_ H4].
  revert H1 H2 H3 H4.
  generalize (phase4 lines fm (phase3 lines fm (phase2 lines fm (phase1 fm)))).
  generalize (phase3 lines fm (phase2 lines fm (phase1 fm))).
  generalize (phase2 lines fm (phase1 fm)).
  generalize (phase1 fm), (removable fm).
  clear. set_solver.
Qed.


(** * Sweeps as least fixed points *)

Lemma size_list_to_set_le (l : list string) :
  size (list_to_set l : gset string) ≤ length l.
Proof.
  induction l as [|x l IH].
  - done.
  - rewrite list_to_set_cons, size_union_alt, size_singleton. simpl.
    assert (size (list_to_set l ∖ {[x]} : gset string) ≤ size (list_to_set l : gset string)).
    { apply subseteq_size. set_solver. }
    lia.
Qed.

Lemma foldl_ext_in {A B} (f g : A → B → A) (l : list B) (a : A) :
  (∀ a e, e ∈ l → f a e = g a e) → foldl f a l = foldl g a l.
Proof.
  revert a. induction l as [|e l IH]; intros a H; simpl; [done|].
  rewrite H by left. apply IH. intros. apply H. by right.
Qed.

Lemma while_changed_ext fuel (f g : gset string → gset string * bool) s :
  (∀ s, f s = g s) → while_changed fuel f s = while_changed fuel g s.
Proof.
  intros H. revert s. induction fuel as [|fuel IH]; intros s; simpl; [done|].
  rewrite H. destruct (g s) as [s' []]; [apply IH|done].
Qed.

Section LeastFixedPoint.
(** [ext name skip]: is [name] referenced outside the spans in [skip]? *)
Context (ext : string → gset string → bool).
Hypothesis ext_anti : ∀ n (S T : gset string), S ⊆ T → ext n T = true → ext n S = true.
(** [cand entry]: the tests of the loop body that do not read the set. *)
Context (cand : string * span → bool).

Local Abbreviation sweep_body := (sweep_body ext cand).
Local Abbreviation sweep := (sweep ext cand).
Local Abbreviation closed := (closed ext cand).

Lemma closed_perm l1 l2 T : l1 ≡ₚ l2 → closed l1 T → closed l2 T.
Proof. intros Hp Hc e He. apply Hc. by rewrite Hp. Qed.

Lemma sweep_body_cases acc e :
  (sweep_body acc e = acc
   ∧ (cand e = true → ext e.1 acc.1 = false → e.1 ∈ acc.1))
  ∨ (sweep_body acc e = (acc.1 ∪ {[e.1]}, true)
     ∧ (e.1 ∉ acc.1) ∧ cand e = true ∧ ext e.1 acc.1 = false).
Proof.
  unfold sweep_body. case_bool_decide as Hin; simpl; [by left|].
  destruct (cand e); simpl; [|by left].
  destruct (ext e.1 acc.1) eqn:He; simpl; [by left|by right].
Qed.

Lemma fold_below l acc (T : gset string) :
  acc.1 ⊆ T → closed l T → (foldl sweep_body acc l).1 ⊆ T.
Proof.
  revert acc. induction l as [|e l IH]; intros acc Hsub Hc; simpl; [done|].
  apply IH; [|intros e' He'; apply Hc; by right].
  destruct (sweep_body_cases acc e) as [[-> _]|(-> & Hnin & Hcand & Hext)]; [done|].
  simpl. assert (e.1 ∈ T); [|set_solver].
  apply Hc; [left|done|].
  destruct (ext e.1 T) eqn:HT; [|done].
  by rewrite (ext_anti _ _ _ Hsub HT) in Hext.
Qed.

Lemma fold_grows l acc : acc.1 ⊆ (foldl sweep_body acc l).1.
Proof.
  revert acc. induction l as [|e l IH]; intros acc; simpl; [done|].
  etrans; [|apply IH].
  destruct (sweep_body_cases acc e) as [[-> _]|(-> & _)]; set_solver.
Qed.

Lemma fold_flag l acc : acc.2 = true → (foldl sweep_body acc l).2 = true.
Proof.
  revert acc. induction l as [|e l IH]; intros acc Hc; simpl; [done|].
  apply IH. by destruct (sweep_body_cases acc e) as [[-> _]|(-> & _)].
Qed.

(** A sweep that leaves the flag down found nothing to add. *)
Lemma fold_quiet l acc :
  (foldl sweep_body acc l).2 = false →
  foldl sweep_body acc l = acc ∧ closed l acc.1.
Proof.
  revert acc. induction l as [|e l IH]; intros acc Hq; simpl in *.
  - split; [done|]. intros e He. by apply elem_of_nil in He.
  - destruct (sweep_body_cases acc e) as [[Heq Hno]|(Heq & _)]; rewrite Heq in Hq |- *.
    + destruct (IH _ Hq) as [-> Hc]. split; [done|].
      intros e' [->|He']%elem_of_cons; [done|by apply Hc].
    + by rewrite fold_flag in Hq.
Qed.

(** A sweep that raises the flag added a key that was missing. *)
Lemma fold_loud l acc :
  acc.2 = false → (foldl sweep_body acc l).2 = true →
  ∃ x, x ∈ l.*1 ∧ (x ∉ acc.1) ∧ x ∈ (foldl sweep_body acc l).1.
Proof.
  revert acc. induction l as [|e l IH]; intros acc Hc Hl; simpl in *; [congruence|].
  destruct (sweep_body_cases acc e) as [[Heq _]|(Heq & Hnin & _)]; rewrite Heq in Hl |- *.
  - destruct (IH _ Hc Hl) as (x & ? & ? & ?). exists x. split; [by right|done].
  - exists e.1. split; [left|]. split; [done|].
    apply (fold_grows l (acc.1 ∪ {[e.1]}, true)). set_solver.
Qed.

Lemma loop_grows fuel l (s : gset string) : s ⊆ while_changed fuel (sweep l) s.
Proof.
  revert s. induction fuel as [|fuel IH]; intros s; simpl; [done|].
  pose proof (fold_grows l (s, false)) as Hg. unfold sweep.
  destruct (foldl sweep_body (s, false) l) as [s' []]; simpl in *; [|done].
  etrans; [apply Hg|apply IH].
Qed.

Lemma loop_below fuel l (s T : gset string) :
  s ⊆ T → closed l T → while_changed fuel (sweep l) s ⊆ T.
Proof.
  revert s. induction fuel as [|fuel IH]; intros s Hsub Hc; simpl; [done|].
  pose proof (fold_below l (s, false) T Hsub Hc) as Hb. unfold sweep.
  destruct (foldl sweep_body (s, false) l) as [s' []]; simpl in *; [|done].
  by apply IH.
Qed.

(** The loop stops by itself before the fuel runs out: with more fuel than
    there are keys still outside the set, its result is closed. *)
Lemma loop_closed fuel l (s : gset string) :
  size (list_to_set l.*1 ∖ s : gset string) < fuel →
  closed l (while_changed fuel (sweep l) s).
Proof.
  revert s. induction fuel as [|fuel IH]; intros s Hsz; simpl; [lia|].
  pose proof (fold_quiet l (s, false)) as Hq.
  pose proof (fold_loud l (s, false) eq_refl) as Hl.
  pose proof (fold_grows l (s, false)) as Hg. unfold sweep.
  destruct (foldl sweep_body (s, false) l) as [s' changed]; simpl in *.
  destruct changed.
  - destruct Hl as (x & Hx & Hnin & Hin); [done|]. apply IH.
    assert (list_to_set l.*1 ∖ s' ⊂ (list_to_set l.*1 ∖ s : gset string)) as Hlt%subset_size.
    { split; [set_solver|]. intros Hsub. 
      assert (x ∈ (list_to_set l.*1 ∖ s : gset string)) as Hx'%Hsub by set_solver.
      set_solver. }
    lia.
  - destruct Hq as [[= ->] Hc]; done.
Qed.

Lemma loop_closed_default l (s : gset string) :
  closed l (while_changed (S (length l)) (sweep l) s).
Proof.
  apply loop_closed.
  assert (size (list_to_set l.*1 ∖ s : gset string) ≤ size (list_to_set l.*1 : gset string))
    by (apply subseteq_size; set_solver).
  pose proof (size_list_to_set_le l.*1) as Hle. rewrite length_fmap in Hle. lia.
Qed.

Lemma fold_closed l acc : closed l acc.1 → foldl sweep_body acc l = acc.
Proof.
  revert acc. induction l as [|e l IH]; intros acc Hc; simpl; [done|].
  destruct (sweep_body_cases acc e) as [[-> _]|(_ & Hnin & Hcand & Hext)].
  - apply IH. intros e' He'. apply Hc. by right.
  - exfalso. apply Hnin. apply Hc; [left|done..].
Qed.

(** Running one more sweep on the result adds nothing and leaves the flag
    down: the Python loop has stopped there. *)
Lemma loop_stable l (s : gset string) :
  let r := while_changed (S (length l)) (sweep l) s in
  sweep l r = (r, false).
Proof. intros r. apply (fold_closed l (r, false)), loop_closed_default. Qed.

(** The result is the least closed set above the start, whatever the order
    of [l]. *)
Lemma loop_perm l1 l2 (s : gset string) :
  l1 ≡ₚ l2 →
  while_changed (S (length l1)) (sweep l1) s
  = while_changed (S (length l2)) (sweep l2) s.
Proof.
  intros Hp. apply (anti_symm (⊆)).
  - apply loop_below; [apply loop_grows|].
    apply closed_perm with l2; [done|apply loop_closed_default].
  - apply loop_below; [apply loop_grows|].
    apply closed_perm with l1; [done|apply loop_closed_default].
Qed.
End LeastFixedPoint.

(** * The classifier does not depend on the order of the function map *)

(** Skipping more spans can only hide references. *)
Lemma ref_scan_anti name fm (S T : gset string) start end_ j ls :
  S ⊆ T →
  ref_scan name fm T start end_ j ls = true →
  ref_scan name fm S start end_ j ls = true.
Proof.
  intros Hsub. revert j. induction ls as [|line ls IH]; intros j; simpl; [done|].
  case_bool_decide; [apply IH|].
  destruct (decide (set_Exists (λ sn, in_span fm j sn = true) S)) as [HS|HS].
  - rewrite (bool_decide_true _ HS), bool_decide_true; [apply IH|].
    destruct HS as (sn & Hsn & Hin). exists sn. split; [by apply Hsub|done].
  - rewrite (bool_decide_false _ HS). case_bool_decide as HT.
    + destruct (names_forward_decl name line); [apply IH|].
      destruct (found _ line); [done|apply IH].
    + destruct (names_forward_decl name line); [apply IH|].
      destruct (found _ line); [done|apply IH].
Qed.

Lemma has_external_ref_anti name lines fm (S T : gset string) :
  S ⊆ T →
  has_external_ref name lines fm T = true →
  has_external_ref name lines fm S = true.
Proof.
  intros Hsub. unfold has_external_ref.
  destruct (dict_get name fm) as [[[start end_] ?]|]; [|done].
  by apply ref_scan_anti.
Qed.

(** Only lookups are made in the map. *)
Lemma ref_scan_lookup name fm1 fm2 skip start end_ j ls :
  (∀ k, dict_get k fm1 = dict_get k fm2) →
  ref_scan name fm1 skip start end_ j ls = ref_scan name fm2 skip start end_ j ls.
Proof.
  intros Hl. revert j. induction ls as [|line ls IH]; intros j; simpl; [done|].
  rewrite IH.
  assert (bool_decide (set_Exists (λ sn, in_span fm1 j sn = true) skip)
          = bool_decide (set_Exists (λ sn, in_span fm2 j sn = true) skip)) as ->; [|done].
  apply bool_decide_ext. unfold set_Exists, in_span.
  split; intros (sn & ? & ?); exists sn; [by rewrite <- Hl|by rewrite Hl].
Qed.

Lemma has_external_ref_lookup name lines fm1 fm2 skip :
  (∀ k, dict_get k fm1 = dict_get k fm2) →
  has_external_ref name lines fm1 skip = has_external_ref name lines fm2 skip.
Proof.
  intros Hl. unfold has_external_ref. rewrite Hl.
  destruct (dict_get name fm2) as [[[start end_] ?]|]; [|done].
  by apply ref_scan_lookup.
Qed.

Lemma phase2_body_sweep lines fm acc e :
  phase2_body lines fm acc e
  = sweep_body (λ n s, has_external_ref n lines fm s) (cand2 lines) acc e.
Proof.
  destruct acc as [s c], e as [name [[start end_] is_static]].
  unfold phase2_body, sweep_body, cand2. simpl.
  case_bool_decide; [done|]. case_bool_decide; [done|]. simpl.
  destruct is_static; [|done]. simpl.
  by destruct (function_body_has_gui_tokens _).
Qed.

Lemma phase4_body_sweep lines fm acc e :
  phase4_body lines fm acc e
  = sweep_body (λ n s, has_external_ref n lines fm s) cand4 acc e.
Proof.
  destruct acc as [s c], e as [name [[start end_] is_static]].
  unfold phase4_body, sweep_body, cand4. simpl.
  case_bool_decide; [done|]. case_bool_decide; [done|]. simpl.
  by destruct is_static.
Qed.

Lemma phase2_is_loop lines fm order s :
  while_changed (S (length order))
    (λ s, foldl (phase2_body lines fm) (s, false) order) s
  = while_changed (S (length order))
      (sweep (λ n s, has_external_ref n lines fm s) (cand2 lines) order) s.
Proof.
  apply while_changed_ext. intros s'. unfold sweep.
  apply foldl_ext_in. intros. apply phase2_body_sweep.
Qed.

Lemma phase4_is_loop lines fm order s :
  while_changed (S (length order))
    (λ s, foldl (phase4_body lines fm) (s, false) order) s
  = while_changed (S (length order))
      (sweep (λ n s, has_external_ref n lines fm s) cand4 order) s.
Proof.
  apply while_changed_ext. intros s'. unfold sweep.
  apply foldl_ext_in. intros. apply phase4_body_sweep.
Qed.

Lemma sweep_lookup lines fm1 fm2 cand order s :
  (∀ k, dict_get k fm1 = dict_get k fm2) →
  sweep (λ n s, has_external_ref n lines fm1 s) cand order s
  = sweep (λ n s, has_external_ref n lines fm2 s) cand order s.
Proof.
  intros Hl. unfold sweep. apply foldl_ext_in. intros [s' c] e _.
  unfold sweep_body. by rewrite (has_external_ref_lookup _ _ fm1 fm2).
Qed.

Lemma phase2_perm lines fm1 fm2 s :
  NoDup fm1.*1 → fm1 ≡ₚ fm2 → phase2 lines fm1 s = phase2 lines fm2 s.
Proof.
  intros Hnd Hp. unfold phase2. rewrite !phase2_is_loop.
  rewrite (while_changed_ext _ _ _ _
             (λ s, sweep_lookup lines fm2 fm1 (cand2 lines) fm2 s
                     (λ k, eq_sym (dict_get_perm k _ _ Hnd Hp)))).
  apply loop_perm; [|done]. intros. by eapply has_external_ref_anti.
Qed.

Lemma phase4_perm lines fm1 fm2 s :
  NoDup fm1.*1 → fm1 ≡ₚ fm2 → phase4 lines fm1 s = phase4 lines fm2 s.
Proof.
  intros Hnd Hp. unfold phase4. rewrite !phase4_is_loop.
  rewrite (while_changed_ext _ _ _ _
             (λ s, sweep_lookup lines fm2 fm1 cand4 fm2 s
                     (λ k, eq_sym (dict_get_perm k _ _ Hnd Hp)))).
  apply loop_perm; [|done]. intros. by eapply has_external_ref_anti.
Qed.

(** Loops that add the keys passing a test of their own. *)
Lemma foldl_cond_add (p : string * span → bool)
    (f : gset string → string * span → gset string) l acc :
  (∀ acc e, f acc e = if p e then acc ∪ {[e.1]} else acc) →
  foldl f acc l = acc ∪ list_to_set (filter (λ e, p e = true) l).*1.
Proof.
  intros Hf. revert acc. induction l as [|e l IH]; intros acc; simpl.
  - by rewrite (right_id_L ∅ (∪)).
  - rewrite IH, Hf, filter_cons. destruct (p e) eqn:Hp.
    + rewrite decide_True by done. rewrite fmap_cons, list_to_set_cons.
      by rewrite (assoc_L (∪)).
    + by rewrite decide_False by congruence.
Qed.

Lemma foldl_cond_add_perm (p : string * span → bool)
    (f : gset string → string * span → gset string) l1 l2 acc :
  (∀ acc e, f acc e = if p e then acc ∪ {[e.1]} else acc) →
  l1 ≡ₚ l2 → foldl f acc l1 = foldl f acc l2.
Proof.
  intros Hf Hp. rewrite !(foldl_cond_add p) by done.
  f_equal. apply list_to_set_perm_L. by rewrite Hp.
Qed.

Lemma phase1_perm fm1 fm2 : fm1 ≡ₚ fm2 → phase1 fm1 = phase1 fm2.
Proof.
  apply (foldl_cond_add_perm
           (λ e, negb (bool_decide (e.1 ∈ KEEP_FUNCTIONS))
                 && is_explicitly_gui_function e.1)).
  intros acc [name sp]. unfold phase1_body. simpl.
  case_bool_decide; [done|]. simpl. by destruct (is_explicitly_gui_function name).
Qed.

Lemma remaining_gui_perm lines s fm1 fm2 :
  fm1 ≡ₚ fm2 →
  foldl (remaining_body lines s) ∅ fm1 = foldl (remaining_body lines s) ∅ fm2.
Proof.
  apply (foldl_cond_add_perm
           (λ e, negb (bool_decide (e.1 ∈ s) || bool_decide (e.1 ∈ KEEP_FUNCTIONS)
                       || negb e.2.2)
                 && function_body_has_gui_tokens (body_of lines e.2.1.1 e.2.1.2))).
  intros acc [name [[start end_] is_static]]. unfold remaining_body. simpl.
  case_bool_decide; [done|]. case_bool_decide; [done|]. simpl.
  destruct is_static; [|done]. simpl. by destruct (function_body_has_gui_tokens _).
Qed.

Lemma phase3_perm lines fm1 fm2 s :
  NoDup fm1.*1 → fm1 ≡ₚ fm2 → phase3 lines fm1 s = phase3 lines fm2 s.
Proof.
  intros Hnd Hp. unfold phase3. rewrite (remaining_gui_perm lines s fm1 fm2 Hp).
  generalize (foldl (remaining_body lines s) ∅ fm2). intros rem.
  assert (filter (λ name, has_external_ref name lines fm1 (s ∪ rem) = false) rem
          = filter (λ name, has_external_ref name lines fm2 (s ∪ rem) = false) rem) as ->;
    [|done].
  apply set_eq. intros x. rewrite !elem_of_filter.
  rewrite (has_external_ref_lookup x lines fm1 fm2); [done|].
  intros k. by apply dict_get_perm.
Qed.

(** * The function map *)

Lemma build_step_inv lines i fm :
  (Forall (recorded lines) fm ∧ NoDup fm.*1) →
  Forall (recorded lines) (build_step lines i fm).2
  ∧ NoDup (build_step lines i fm).2.*1.
Proof.
  intros [Hrec Hnd]. unfold build_step.
  destruct (get_function_name (line_at lines i)) as [[name is_static]|] eqn:Hname; [|done].
  destruct (is_forward_declaration (line_at lines i)); [done|].
  destruct (_ && _); [done|].
  destruct (find_brace_block_end lines i) as [end_|] eqn:Hend; [|done].
  simpl. split; [|by apply dict_set_keys_NoDup].
  apply Forall_forall. intros e [->|He]%dict_set_elem.
  - by split.
  - exact (proj1 (Forall_forall _ _) Hrec _ He).
Qed.

Lemma build_function_map_inv lines :
  Forall (recorded lines) (build_function_map lines)
  ∧ NoDup (build_function_map lines).*1.
Proof.
  unfold build_function_map.
  apply (index_loop_inv (build_step lines) (length lines)
           (λ fm, Forall (recorded lines) fm ∧ NoDup fm.*1)).
  - intros i fm _. apply build_step_inv.
  - split; [constructor|apply NoDup_nil_2].
Qed.

Lemma build_function_map_NoDup lines : NoDup (build_function_map lines).*1.
Proof. apply build_function_map_inv. Qed.

Lemma build_function_map_recorded lines name start end_ is_static :
  (name, (start, end_, is_static)) ∈ build_function_map lines →
  get_function_name (line_at lines start) = Some (name, is_static)
  ∧ find_brace_block_end lines start = Some end_.
Proof.
  intros Hin. destruct (build_function_map_inv lines) as [Hrec _].
  exact (proj1 (Forall_forall _ _) Hrec _ Hin).
Qed.

(** The loop of [build_function_map] moves forward at every iteration, so
    its fuel is enough. *)
Lemma build_step_advances lines i fm : i < (build_step lines i fm).1.
Proof.
  unfold build_step.
  destruct (get_function_name _) as [[name is_static]|]; [|simpl; lia].
  destruct (is_forward_declaration _); [simpl; lia|].
  destruct (_ && _); [simpl; lia|].
  destruct (find_brace_block_end lines i) as [end_|] eqn:Hend; [|simpl; lia].
  apply find_brace_block_end_bounds in Hend. simpl. lia.
Qed.

Lemma build_function_map_fuel lines extra :
  index_loop (build_step lines) (length lines) (length lines + extra) 0 []
  = build_function_map lines.
Proof.
  apply index_loop_fuel; [|lia]. intros. apply build_step_advances.
Qed.

Lemma removable_elem name (fm : func_map) :
  name ∈ removable fm → (name ∉ KEEP_FUNCTIONS) ∧ ∃ sp, (name, sp) ∈ fm.
Proof.
  unfold removable. rewrite elem_of_difference, elem_of_list_to_set, list_elem_of_fmap.
  intros [[[k sp] [Hk Hin]] Hkeep]. simpl in Hk. subst k. split; [done|]. by exists sp.
Qed.

(** The set reported at the end is the classifier's set together with the
    orphans found in the rewritten text. *)
Lemma removed_split lines :
  ∃ out, removed (strip_lines lines)
         = find_all_functions_to_remove lines (build_function_map lines)
           ∪ find_post_orphans out.
Proof. eexists. reflexivity. Qed.


(** The classifier only removes keys of the function map. *)
Lemma not_key_not_removed name lines (fm : func_map) :
  dict_get name fm = None → name ∉ find_all_functions_to_remove lines fm.
Proof.
  intros Hnone Hin. apply classifier_between, removable_elem in Hin as (_ & sp & Hin).
  apply dict_get_None in Hnone. apply Hnone.
  apply list_elem_of_fmap. by exists (name, sp).
Qed.

(** * Definition lines *)

Lemma startswith_app p q s : startswith (p +:+ q) s = true → startswith p s = true.
Proof.
  revert s. induction p as [|a p IH]; intros s; simpl; [done|].
  destruct s as [|b s]; [done|].
  intros [-> H]%andb_prop. simpl. by apply IH.
Qed.

(** A line that [get_function_name] accepts is neither an include line nor a
    comment. *)
Lemma definition_line_not_include line r :
  get_function_name line = Some r →
  is_gui_include line = false ∧ commented_gui_include line = false.
Proof.
  unfold get_function_name, is_gui_include, commented_gui_include.
  generalize (strip line). intros stripped.
  destruct (String.eqb stripped EmptyString); [done|].
  destruct (startswith "#" stripped) eqn:Hhash; [done|].
  destruct (startswith "//" stripped) eqn:Hsl; [done|].
  intros _. split; [|done].
  destruct (startswith "#include" stripped) eqn:Hinc; [|done].
  apply (startswith_app "#" "include") in Hinc. congruence.
Qed.

(** At a definition line whose block never closes, Pass 2 emits the line and
    moves to the next one. *)
Lemma pass2_step_unclosed lines to_remove i out r :
  get_function_name (line_at lines i) = Some r →
  find_brace_block_end lines i = None →
  pass2_step lines to_remove i out = (S i, out ++ [line_at lines i]).
Proof.
  intros Hname Hend. unfold pass2_step, removed_block.
  destruct (definition_line_not_include _ _ Hname) as [-> ->].
  rewrite Hname, Hend. destruct r as [name is_static].
  destruct (is_gui_data_struct_start _);
    destruct (_ && _); try done; by destruct (negb _).
Qed.

(** * The index loops stop by themselves

    Each body moves its index forward, so the fuel given in the definitions
    is never what ends a loop. *)

Lemma block_within_bounds lines i func_end block_end :
  block_within lines i func_end = Some block_end → i ≤ block_end ≤ func_end.
Proof.
  unfold block_within.
  destruct (find_brace_block_end lines i) as [e|] eqn:He; [|done].
  case_bool_decide; [|done]. intros [= <-].
  apply find_brace_block_end_bounds in He. lia.
Qed.

Lemma skip_blank_ge ls next_i : next_i ≤ skip_blank ls next_i.
Proof.
  revert next_i. induction ls as [|l ls IH]; intros n; simpl; [done|].
  destruct (String.eqb _ _); [|done]. specialize (IH (S n)). lia.
Qed.

Lemma strip_var_if_advances lines func_end i indent i' added :
  strip_var_if lines func_end i indent = Some (i', added) → i < i'.
Proof.
  unfold strip_var_if.
  destruct (block_within lines i func_end) as [if_block_end|] eqn:Hif; [|done].
  apply block_within_bounds in Hif.
  pose proof (skip_blank_ge (slice lines (S if_block_end) func_end) (S if_block_end)).
  destruct (_ && _).
  - destruct (block_within lines _ func_end) as [else_block_end|] eqn:Helse.
    + apply block_within_bounds in Helse. intros [= <- _]. lia.
    + intros [= <- _]. lia.
  - intros [= <- _]. lia.
Qed.

Lemma strip_bound_advances lines func_end i v line i' added :
  strip_bound lines func_end i v line = Some (i', added) → i < i'.
Proof.
  unfold strip_bound.
  destruct (match re_match (var_if_re v) line with
            | Some g => strip_var_if lines func_end i (group 1 g)
            | None => None
            end) as [[i1 a1]|] eqn:Hv.
  - intros [= <- _]. destruct (re_match (var_if_re v) line); [|done].
    by eapply strip_var_if_advances.
  - destruct (block_within lines i func_end) as [e|] eqn:He;
      [apply block_within_bounds in He|];
      destruct (matches (var_and_re v) line), (matches (and_var_re v) line),
        (matches (var_field_re v) line);
      try done; intros [= <- _]; lia.
Qed.

Lemma strip_step_advances lines func_end i st :
  i < (strip_step lines func_end i st).1.
Proof.
  destruct st as [gui_data_var result]. unfold strip_step.
  destruct (re_match GUI_DATA_ASSIGN_RE _); [simpl; lia|].
  destruct (matches GUI_DATA_FIELD_RE _); [simpl; lia|].
  destruct (matches GUI_IF_ONELINE_RE _); [simpl; lia|].
  destruct (matches GUI_IF_RE _).
  - destruct (block_within lines i func_end) as [e|] eqn:He.
    { apply block_within_bounds in He. simpl. lia. }
    destruct gui_data_var as [v|]; [|simpl; lia].
    destruct (strip_bound _ _ _ _ _) as [[i' added]|] eqn:Hb; [|simpl; lia].
    apply strip_bound_advances in Hb. simpl. lia.
  - destruct gui_data_var as [v|]; [|simpl; lia].
    destruct (strip_bound _ _ _ _ _) as [[i' added]|] eqn:Hb; [|simpl; lia].
    apply strip_bound_advances in Hb. simpl. lia.
Qed.

Lemma strip_gui_data_in_function_fuel lines func_start func_end extra :
  snd (index_loop (strip_step lines func_end) (S func_end)
         (S func_end - func_start + extra) func_start (None, []))
  = strip_gui_data_in_function lines func_start func_end.
Proof.
  unfold strip_gui_data_in_function. f_equal.
  apply index_loop_fuel; [|lia]. intros. apply strip_step_advances.
Qed.

Lemma pass2_step_advances lines to_remove i out :
  i < (pass2_step lines to_remove i out).1.
Proof.
  unfold pass2_step.
  destruct (is_gui_include _); [simpl; lia|].
  destruct (commented_gui_include _); [simpl; lia|].
  destruct (is_gui_data_struct_start _).
  - destruct (find_brace_block_end lines i) as [e|] eqn:He.
    { apply find_brace_block_end_bounds in He. simpl. lia. }
    destruct (removed_block lines to_remove i) as [e|] eqn:Hr; [|simpl; lia].
    unfold removed_block in Hr. rewrite He in Hr.
    destruct (get_function_name _) as [[]|]; [|done].
    destruct (_ && _); [|done]. by destruct (negb _).
  - destruct (removed_block lines to_remove i) as [e|] eqn:Hr; [|simpl; lia].
    unfold removed_block in Hr.
    destruct (get_function_name _) as [[]|]; [|done].
    destruct (_ && _); [|done]. destruct (negb _); [|done].
    apply find_brace_block_end_bounds in Hr. simpl. lia.
Qed.

Lemma pass2_fuel lines to_remove extra :
  index_loop (pass2_step lines to_remove) (length lines) (length lines + extra) 0 []
  = pass2 lines to_remove.
Proof. apply index_loop_fuel; [|lia]. intros. apply pass2_step_advances. Qed.

Lemma pass5_step_advances output post_orphans i cleaned :
  i < (pass5_step output post_orphans i cleaned).1.
Proof.
  unfold pass5_step.
  destruct (orphan_block output post_orphans i) as [e|] eqn:Hr; [|simpl; lia].
  unfold orphan_block in Hr.
  destruct (get_function_name _) as [[]|]; [|done].
  destruct (_ && _); [|done].
  apply find_brace_block_end_bounds in Hr. simpl. lia.
Qed.

(** Spans of the function map lie inside the text, so the rewriter never
    reads past the end of the list. *)
Lemma build_function_map_in_range lines name start end_ is_static :
  (name, (start, end_, is_static)) ∈ build_function_map lines →
  start ≤ end_ < length lines.
Proof.
  intros [_ He]%build_function_map_recorded.
  by apply find_brace_block_end_bounds.
Qed.

(** * Where output lines come from *)

Lemma texts_from_nil input : texts_from input [].
Proof. intros l Hl. by apply elem_of_nil in Hl. Qed.

Lemma texts_from_sub input output : output ⊆ input → texts_from input output.
Proof. intros Hsub l Hl. right. exists l. split; [by apply Hsub|done]. Qed.

Lemma texts_from_refl input : texts_from input input.
Proof. by apply texts_from_sub. Qed.

Lemma texts_from_app input o1 o2 :
  texts_from input o1 → texts_from input o2 → texts_from input (o1 ++ o2).
Proof. intros H1 H2 l [Hl|Hl]%elem_of_app; auto. Qed.

Lemma texts_from_trans a b c : texts_from a b → texts_from b c → texts_from a c.
Proof.
  intros Hab Hbc l Hl. destruct (Hbc l Hl) as [?|(l0 & Hl0 & Heq)]; [by left|].
  destruct (Hab l0 Hl0) as [?|(l1 & Hl1 & Heq1)]; [left; congruence|].
  right. exists l1. split; [done|congruence].
Qed.

Lemma texts_from_line_at lines i : texts_from lines [line_at lines i].
Proof.
  intros l ->%list_elem_of_singleton. unfold line_at.
  destruct (lines !! i) as [l|] eqn:Hl; simpl; [|by left].
  right. exists l. split; [by eapply list_elem_of_lookup_2|done].
Qed.

Lemma slice_sub lines a b : slice lines a b ⊆ lines.
Proof. unfold slice. etrans; [apply subseteq_take|apply subseteq_drop]. Qed.

(** A property of lines that only reads their stripped text and holds of
    blank lines is inherited. *)
Lemma texts_from_Forall (Q : string → Prop) input output :
  (∀ l l0, strip l = strip l0 → Q l0 → Q l) →
  (∀ l, strip l = EmptyString → Q l) →
  texts_from input output → Forall Q input → Forall Q output.
Proof.
  intros Hstable Hblank Hfrom Hin. apply Forall_forall. intros l Hl.
  destruct (Hfrom l Hl) as [?|(l0 & Hl0 & Heq)]; [by apply Hblank|].
  apply (Hstable l l0 Heq). by eapply Forall_forall in Hin.
Qed.

(** ** The resource rewriter *)

Lemma strip_var_if_texts lines func_end i indent i' added :
  all_space indent = true →
  strip_var_if lines func_end i indent = Some (i', added) →
  texts_from lines added.
Proof.
  intros Hi. unfold strip_var_if.
  destruct (block_within lines i func_end) as [if_block_end|]; [|done].
  destruct (if _ : bool then block_within _ _ _ else None) as [else_block_end|].
  - intros [= _ <-] l (l0 & -> & Hl0)%list_elem_of_fmap. right. exists l0.
    split; [by eapply slice_sub|]. by apply dedent_strip.
  - intros [= _ <-]. apply texts_from_nil.
Qed.

Lemma strip_bound_texts lines func_end i v line i' added :
  strip_bound lines func_end i v line = Some (i', added) →
  texts_from lines added.
Proof.
  unfold strip_bound.
  destruct (re_match (var_if_re v) line) as [c|] eqn:Hm.
  - destruct (strip_var_if _ _ _ _) as [[i1 a1]|] eqn:Hv.
    + intros [= _ <-]. eapply strip_var_if_texts; [|done]. by eapply var_if_indent.
    + destruct (if matches (var_and_re v) line then _ else _).
      { intros [= _ <-]. apply texts_from_nil. }
      destruct (if matches (and_var_re v) line then _ else _).
      { intros [= _ <-]. apply texts_from_nil. }
      destruct (matches (var_field_re v) line); [|done].
      intros [= _ <-]. apply texts_from_nil.
  - destruct (if matches (var_and_re v) line then _ else _).
    { intros [= _ <-]. apply texts_from_nil. }
    destruct (if matches (and_var_re v) line then _ else _).
    { intros [= _ <-]. apply texts_from_nil. }
    destruct (matches (var_field_re v) line); [|done].
    intros [= _ <-]. apply texts_from_nil.
Qed.

Lemma strip_step_texts lines func_end i st :
  texts_from lines st.2 → texts_from lines (strip_step lines func_end i st).2.2.
Proof.
  destruct st as [gui_data_var result]. simpl. intros Hres. unfold strip_step.
  destruct (re_match GUI_DATA_ASSIGN_RE _); [done|].
  destruct (matches GUI_DATA_FIELD_RE _); [done|].
  destruct (matches GUI_IF_ONELINE_RE _); [done|].
  destruct (if matches GUI_IF_RE _ then _ else _); [done|].
  destruct gui_data_var as [v|].
  - destruct (strip_bound _ _ _ _ _) as [[i' added]|] eqn:Hb; simpl.
    + apply texts_from_app; [done|]. by eapply strip_bound_texts.
    + apply texts_from_app; [done|]. apply texts_from_line_at.
  - simpl. apply texts_from_app; [done|]. apply texts_from_line_at.
Qed.

Lemma strip_gui_data_in_function_texts lines func_start func_end :
  texts_from lines (strip_gui_data_in_function lines func_start func_end).
Proof.
  unfold strip_gui_data_in_function.
  apply (index_loop_inv (strip_step lines func_end) (S func_end)
           (λ st, texts_from lines st.2)).
  - intros i st _ H. by apply strip_step_texts.
  - apply texts_from_nil.
Qed.

Lemma pass4_body_texts input output e :
  texts_from input output → texts_from input (pass4_body output e).
Proof.
  intros H. destruct e as [name [[start end_] is_static]]. unfold pass4_body, splice.
  eapply texts_from_trans; [done|].
  repeat apply texts_from_app.
  - apply texts_from_sub, subseteq_take.
  - apply strip_gui_data_in_function_texts.
  - apply texts_from_sub, subseteq_drop.
Qed.

Lemma pass4_fold_texts input l cur :
  texts_from input cur → texts_from input (foldl pass4_body cur l).
Proof.
  revert cur. induction l as [|e l IH]; intros cur Hcur; simpl; [done|].
  apply IH. by apply pass4_body_texts.
Qed.

Lemma pass4_texts output : texts_from output (pass4 output).
Proof. apply pass4_fold_texts, texts_from_refl. Qed.

(** ** The line filters *)

Lemma pass4b_texts output : texts_from output (pass4b output).
Proof.
  induction output as [|line rest IH]; simpl; [apply texts_from_nil|].
  assert (texts_from (line :: rest) (pass4b rest)) as Hrest.
  { eapply texts_from_trans; [|apply IH]. apply texts_from_sub. set_solver. }
  destruct (widget_if_line _).
  - intros l [->|Hl]%elem_of_cons; [by left|by apply Hrest].
  - destruct (widget_call_line _); [done|].
    intros l [->|Hl]%elem_of_cons; [|by apply Hrest].
    right. exists line. split; [left|done].
Qed.

Lemma remove_forward_declarations_sub lines names :
  remove_forward_declarations lines names ⊆ lines.
Proof.
  induction lines as [|line rest IH]; simpl; [done|].
  destruct (re_match FORWARD_DECL_RE _) as [m|].
  - case_bool_decide; [by apply list_subseteq_cons|by apply list_subseteq_skip].
  - by apply list_subseteq_skip.
Qed.

Lemma pass5_step_texts output post_orphans i cleaned :
  texts_from output cleaned →
  texts_from output (pass5_step output post_orphans i cleaned).2.
Proof.
  intros H. unfold pass5_step. destruct (orphan_block _ _ _); [done|]. simpl.
  apply texts_from_app; [done|apply texts_from_line_at].
Qed.

Lemma pass5_texts output post_orphans : texts_from output (pass5 output post_orphans).
Proof.
  unfold pass5. case_bool_decide; [apply texts_from_refl|].
  eapply texts_from_trans; [|apply texts_from_sub, remove_forward_declarations_sub].
  apply (index_loop_inv (pass5_step output post_orphans) (length output)
           (λ cleaned, texts_from output cleaned)).
  - intros i st _ Hst. by apply pass5_step_texts.
  - apply texts_from_nil.
Qed.

Lemma pass6_sub output : pass6 output ⊆ output.
Proof.
  induction output as [|line rest IH]; simpl; [done|].
  destruct (stray_gui_data_line line);
    [by apply list_subseteq_cons|by apply list_subseteq_skip].
Qed.

Lemma pass7_sub output blank_count : pass7 output blank_count ⊆ output.
Proof.
  revert blank_count. induction output as [|line rest IH]; intros n; simpl; [done|].
  destruct (String.eqb _ _).
  - case_bool_decide; [by apply list_subseteq_skip|by apply list_subseteq_cons].
  - by apply list_subseteq_skip.
Qed.

(** * The claims *)

(** ** C1 *)




(** ** C3 *)

(** C3: the removal set only grows, from one insertion to the next, from
    phase to phase, and through the orphan sweep made after the rewriting. *)
Theorem removal_set_only_grows (lines : list string) :
  let fm := build_function_map lines in
  let s1 := phase1 fm in
  let s2 := phase2 lines fm s1 in
  let s3 := phase3 lines fm s2 in
  let s4 := phase4 lines fm s3 in
  (∀ acc e, acc ⊆ phase1_body acc e)
  ∧ (∀ fm' acc e, acc.1 ⊆ (phase2_body lines fm' acc e).1)
  ∧ (∀ fm' acc e, acc.1 ⊆ (phase4_body lines fm' acc e).1)
  ∧ (∀ out fm' acc e, acc.1 ⊆ (pass5_body out fm' acc e).1)
  ∧ s1 ⊆ s2 ∧ s2 ⊆ s3 ∧ s3 ⊆ s4
  ∧ s4 = find_all_functions_to_remove lines fm
  ∧ s4 ⊆ removed (strip_lines lines).
Proof.
  intros fm s1 s2 s3 s4. repeat split.
  - intros acc [name sp]. unfold phase1_body.
    case_bool_decide; [done|]. destruct (is_explicitly_gui_function name); [|done].
    apply union_subseteq_l.
  - intros fm' acc e. rewrite phase2_body_sweep.
    destruct (sweep_body_cases (λ n s, has_external_ref n lines fm' s)
                (cand2 lines) acc e) as [[-> _]|[-> _]]; [done|apply union_subseteq_l].
  - intros fm' acc e. rewrite phase4_body_sweep.
    destruct (sweep_body_cases (λ n s, has_external_ref n lines fm' s)
                cand4 acc e) as [[-> _]|[-> _]]; [done|apply union_subseteq_l].
  - intros out fm' [s c] [name [[start end_] is_static]]. unfold pass5_body.
    destruct (_ || _); [done|]. destruct (negb _); [done|].
    destruct (negb _); [apply union_subseteq_l|done].
  - apply phase2_between.
  - apply phase3_between.
  - apply phase4_between.
  - destruct (removed_split lines) as [out ->]. apply union_subseteq_l.
Qed.

(** ** C7 *)

(** C7: a name that is not a key of the function map is reported as
    referenced, whatever the lines and the skip set; and the classifier
    never removes such a name. *)
Theorem unknown_name_has_external_ref
    (name : string) (lines : list string) (fm : func_map) (skip_set : gset string) :
  dict_get name fm = None →
  has_external_ref name lines fm skip_set = true
  ∧ name ∉ find_all_functions_to_remove lines fm.
Proof.
  intros Hnone. split.
  - unfold has_external_ref. by rewrite Hnone.
  - by apply not_key_not_removed.
Qed.

Lemma unknown_name_has_external_ref_witness :
  has_external_ref "helper" helper_cascade [] {["gui_update"]} = true
  ∧ "helper" ∉ find_all_functions_to_remove helper_cascade [].
Proof.
  apply (unknown_name_has_external_ref "helper" helper_cascade [] {["gui_update"]}).
  reflexivity.
Defined.

(** ** C2 *)

(** The loops of phases 2 and 4 and of the orphan sweep have stopped when
    their fuel is spent: one more sweep adds nothing. *)
Lemma phase2_stopped lines fm s :
  foldl (phase2_body lines fm) (phase2 lines fm s, false) fm
  = (phase2 lines fm s, false).
Proof.
  unfold phase2. rewrite phase2_is_loop.
  etrans; [apply foldl_ext_in; intros; apply phase2_body_sweep|].
  apply loop_stable; intros; by eapply has_external_ref_anti.
Qed.

Lemma phase4_stopped lines fm s :
  foldl (phase4_body lines fm) (phase4 lines fm s, false) fm
  = (phase4 lines fm s, false).
Proof.
  unfold phase4. rewrite phase4_is_loop.
  etrans; [apply foldl_ext_in; intros; apply phase4_body_sweep|].
  apply loop_stable; intros; by eapply has_external_ref_anti.
Qed.

Lemma pass5_body_sweep lines fm acc e :
  pass5_body lines fm acc e
  = sweep_body (λ n s, has_external_ref n lines fm s) (cand5 lines) acc e.
Proof.
  destruct acc as [s c], e as [name [[start end_] is_static]].
  unfold pass5_body, sweep_body, cand5. simpl.
  by case_bool_decide; case_bool_decide.
Qed.

Lemma post_orphans_stopped out :
  let fm := build_function_map out in
  foldl (pass5_body out fm) (find_post_orphans out, false) fm
  = (find_post_orphans out, false).
Proof.
  intros fm. unfold find_post_orphans. fold fm.
  rewrite (while_changed_ext _ _
             (sweep (λ n s, has_external_ref n out fm s) (cand5 out) fm)).
  - etrans; [apply foldl_ext_in; intros; apply pass5_body_sweep|].
    apply loop_stable; intros; by eapply has_external_ref_anti.
  - intros s. apply foldl_ext_in. intros. apply pass5_body_sweep.
Qed.

(** C2: the removal set is a function of the contents of the function map.
    Going through the functions in another order, even a different one in
    each phase, gives the same set. *)
Theorem classifier_order_independent
    (lines : list string) (fm o1 o2 o3 o4 : func_map) :
  NoDup fm.*1 →
  o1 ≡ₚ fm → o2 ≡ₚ fm → o3 ≡ₚ fm → o4 ≡ₚ fm →
  phase4 lines o4 (phase3 lines o3 (phase2 lines o2 (phase1 o1)))
  = find_all_functions_to_remove lines fm.
Proof.
  intros Hnd H1 H2 H3 H4. unfold find_all_functions_to_remove.
  rewrite (phase1_perm o1 fm H1).
  rewrite <- (phase2_perm lines fm o2) by done.
  rewrite <- (phase3_perm lines fm o3) by done.
  by rewrite <- (phase4_perm lines fm o4).
Qed.

Lemma classifier_order_independent_witness :
  let fm := [("helper", (0, 3, true)); ("gui_update", (4, 7, false))] in
  phase4 helper_cascade (reverse fm)
    (phase3 helper_cascade fm (phase2 helper_cascade (reverse fm) (phase1 fm)))
  = find_all_functions_to_remove helper_cascade fm.
Proof.
  intros fm.
  apply (classifier_order_independent helper_cascade fm fm (reverse fm) fm (reverse fm)).
  - apply (bool_decide_unpack _). vm_compute. exact I.
  - reflexivity.
  - apply perm_swap.
  - reflexivity.
  - apply perm_swap.
Defined.

(** ** C4 *)

(** C4, as stated, fails: [foo] never closes in the input, yet blanking the
    widget line balances its braces; the orphan sweep then finds [foo],
    adds it to the removal set and deletes its lines. *)
Lemma unclosed_function_removed_after_rewrite : ¬ fail_open unclosed_with_widget_line.
Proof.
  intros H. destruct (H 0 "foo" true) as (_ & Hrem & _).
  - simpl. lia.
  - vm_compute. reflexivity.
  - vm_compute. reflexivity.
  - apply Hrem. apply (bool_decide_unpack _). vm_compute. exact I.
Qed.

(** C4, amended: at a definition line whose block never closes, the block
    matcher reports "not found" and no entry of the function map starts; when
    no definition of that name closes, the name is in neither the function
    map nor the classifier's removal set; and Pass 2 emits the line and moves
    on by one line, whatever the removal set. *)
Theorem unclosed_definition_left_alone
    (lines : list string) (i : nat) (name : string) (is_static : bool) :
  get_function_name (line_at lines i) = Some (name, is_static) →
  ¬ closes_in (scanned_text lines i) →
  find_brace_block_end lines i = None
  ∧ (∀ name' end_ is_static',
        (name', (i, end_, is_static')) ∉ build_function_map lines)
  ∧ ((∀ j is_static',
         get_function_name (line_at lines j) = Some (name, is_static') →
         ¬ closes_in (scanned_text lines j)) →
     dict_get name (build_function_map lines) = None
     ∧ name ∉ find_all_functions_to_remove lines (build_function_map lines))
  ∧ (∀ to_remove output_lines,
        pass2_step lines to_remove i output_lines
        = (S i, output_lines ++ [line_at lines i])).
Proof.
  intros Hname Hend%find_brace_block_end_None. split; [done|]. split; [|split].
  - intros name' end_ is_static' [_ Hsome]%build_function_map_recorded. congruence.
  - intros Hall.
    assert (dict_get name (build_function_map lines) = None) as Hnone.
    { destruct (dict_get name (build_function_map lines)) as [[[s e] st]|] eqn:Hget;
        [|done].
      apply dict_get_Some, build_function_map_recorded in Hget as [Hn He].
      apply Hall, find_brace_block_end_None in Hn. congruence. }
    split; [done|].
    by apply not_key_not_removed.
  - intros to_remove output_lines. by eapply pass2_step_unclosed.
Qed.

Lemma unclosed_definition_left_alone_witness :
  get_function_name (line_at unclosed_with_widget_line 0) = Some ("foo", true)
  ∧ ¬ closes_in (scanned_text unclosed_with_widget_line 0)
  ∧ find_brace_block_end unclosed_with_widget_line 0 = None
  ∧ ∀ to_remove output_lines,
      pass2_step unclosed_with_widget_line to_remove 0 output_lines
      = (1, output_lines ++ [line_at unclosed_with_widget_line 0]).
Proof.
  assert (get_function_name (line_at unclosed_with_widget_line 0) = Some ("foo", true))
    as Hname by (vm_compute; reflexivity).
  assert (¬ closes_in (scanned_text unclosed_with_widget_line 0)) as Hend
    by (apply find_brace_block_end_None; vm_compute; reflexivity).
  destruct (unclosed_definition_left_alone unclosed_with_widget_line 0 "foo" true
              Hname Hend) as (Hnone & _ & _ & Hstep).
  split; [exact Hname|]. split; [exact Hend|].
  split; [exact Hnone|exact Hstep].
Defined.

(** The passes of [strip_lines], one after the other. *)
Lemma strip_lines_passes lines :
  ∃ output2,
    let to_remove := find_all_functions_to_remove lines (build_function_map lines) in
    let output4b :=
      pass4b (pass4 (remove_forward_declarations output2 to_remove)) in
    let post_orphans := find_post_orphans output4b in
    final_lines (strip_lines lines) = pass7 (pass6 (pass5 output4b post_orphans)) 0
    ∧ removed (strip_lines lines) = to_remove ∪ post_orphans.
Proof. eexists. split; reflexivity. Qed.

Lemma final_from_pass5 output :
  texts_from output (pass7 (pass6 output) 0).
Proof.
  apply texts_from_sub. etrans; [apply pass7_sub|apply pass6_sub].
Qed.

(** ** The examples of the specification *)

(** A helper used only by a removed GUI function goes with it, and the
    protected function stays. *)
Example helper_cascade_removed :
  elements (removed (strip_lines helper_cascade)) = ["gui_update"; "helper"]
  ∧ final_lines (strip_lines helper_cascade)
    = source [ "void process(void)"; "{"; "}" ].
Proof. split; vm_compute; reflexivity. Qed.

(** [process] loses its [if (self->gui_data)] block and nothing else. *)
Example protected_gui_block_stripped :
  final_lines (strip_lines protected_with_gui_block)
  = source [ "void process(void)"; "{"; "  y = 1;"; "}" ].
Proof. vm_compute. reflexivity. Qed.

(** ** C5 *)

(** C5 fails on the code: for the raw accessor only the [if] block is
    deleted; the [else] and its body stay where they were. *)
Example raw_if_else_keeps_else :
  strip_gui_data_in_function raw_if_else 0 10
  = source [ "void process(void)"; "{"; "  else"; "  {"; "    b();"; "  }"; "}" ]
  ∧ final_lines (strip_lines raw_if_else)
    = source [ "void process(void)"; "{"; "  else"; "  {"; "    b();"; "  }"; "}" ].
Proof. split; vm_compute; reflexivity. Qed.

(** The same conditional on a bound variable is replaced by the body of its
    [else], moved one level out. *)
Example bound_if_else_keeps_else_body :
  final_lines (strip_lines bound_if_else)
  = source [ "void process(void)"; "{"; "  b();"; "}" ].
Proof. vm_compute. reflexivity. Qed.

(** ** C6 *)


(** A static declaration broken over two lines is not matched either. *)
Example two_line_prototype_kept :
  final_lines (strip_lines two_line_prototype)
  = source [ "static void gui_helper(int a,"; "                       int b);" ]
  ∧ elements (removed (strip_lines two_line_prototype)) = ["gui_helper"].
Proof. split; vm_compute; reflexivity. Qed.

(** When it stands before other functions, Pass 2 takes it for the start of
    a definition and deletes up to the end of the next block. *)
Example two_line_prototype_swallows_next_block :
  final_lines (strip_lines two_line_prototype_first) = [].
Proof. vm_compute. reflexivity. Qed.






(** ** C8 *)



(** ** C9 *)

Lemma pass4b_app a b : pass4b (a ++ b) = pass4b a ++ pass4b b.
Proof.
  induction a as [|line a IH]; simpl; [done|].
  destruct (widget_if_line _); [by rewrite IH|].
  destruct (widget_call_line _); by rewrite IH.
Qed.

Lemma pass4b_clean output :
  Forall (λ l, widget_call_line (strip l) = false) (pass4b output).
Proof.
  induction output as [|line rest IH]; simpl; [constructor|].
  destruct (widget_if_line _).
  - constructor; [|done]. vm_compute. reflexivity.
  - destruct (widget_call_line (strip line)) eqn:Hc; [done|]. by constructor.
Qed.

Lemma widget_call_blank l : strip l = EmptyString → widget_call_line (strip l) = false.
Proof. intros ->. vm_compute. reflexivity. Qed.

(** C9: Pass 4b takes a line that mentions [self->widget] with [gtk_stack_]
    or [gtk_widget_] out of the text, leaving an empty string in its place
    when it is the one-line [if (self->widget)] form, and nothing otherwise;
    the pass is given lines only, so the function a line stands in, protected
    or not, plays no part, and no such line is left in what is written. *)
Theorem widget_lines_removed (lines pre post : list string) (line : string) :
  widget_call_line (strip line) = true →
  pass4b (pre ++ line :: post)
  = pass4b pre ++ (if widget_if_line (strip line) then [EmptyString] else [])
      ++ pass4b post
  ∧ Forall (λ l, widget_call_line (strip l) = false) (final_lines (strip_lines lines)).
Proof.
  intros Hc. split.
  - rewrite pass4b_app. f_equal. simpl. rewrite Hc. by destruct (widget_if_line _).
  - destruct (strip_lines_passes lines) as (output2 & -> & _).
    eapply (texts_from_Forall (λ l, widget_call_line (strip l) = false)).
    + by intros l l0 ->.
    + apply widget_call_blank.
    + eapply texts_from_trans; [apply pass5_texts|apply final_from_pass5].
    + apply pass4b_clean.
Qed.

Lemma widget_lines_removed_witness :
  pass4b protected_with_widget_lines
  = source [ "void process(void)"; "{" ] ++ [EmptyString]
      ++ pass4b (source [ "  gtk_widget_show(self->widget);"; "  y = 1;"; "}" ])
  ∧ final_lines (strip_lines protected_with_widget_lines)
    = [ "void process(void)" +:+ nl; "{" +:+ nl; EmptyString; "  y = 1;" +:+ nl;
        "}" +:+ nl ].
Proof.
  split; [|vm_compute; reflexivity].
  refine (proj1 (widget_lines_removed [] (source [ "void process(void)"; "{" ])
                   (source [ "  gtk_widget_show(self->widget);"; "  y = 1;"; "}" ])
                   ("  if(self->widget) gtk_stack_set_visible_child_name(GTK_STACK(self->widget), x);" +:+ nl)
                   _)).
  vm_compute. reflexivity.
Defined.

(** ** C10 *)






(** * Further properties of the code *)

(** ** Brace matching *)

Lemma ascii_eqb_sym a b : ascii_eqb a b = ascii_eqb b a.
Proof. unfold ascii_eqb. apply N.eqb_sym. Qed.

Lemma contains_cons_char q c s :
  contains (ch q) (String c s) = ascii_eqb q c || contains (ch q) s.
Proof. simpl. by rewrite andb_true_r. Qed.

Lemma scan_braces_stops_at_brace s depth found_open :
  scan_braces s depth found_open = inl tt → contains (ch "}") s = true.
Proof.
  revert depth found_open. induction s as [|c s IH]; intros d f; [done|].
  rewrite contains_cons_char. cbn [scan_braces].
  destruct (ascii_eqb c "{") eqn:Ho.
  - intros H%IH. rewrite H. apply orb_true_r.
  - destruct (ascii_eqb c "}") eqn:Hc.
    + intros _. by rewrite ascii_eqb_sym, Hc.
    + intros H%IH. rewrite H. apply orb_true_r.
Qed.

Lemma block_end_from_line ls i depth found_open e :
  block_end_from ls i depth found_open = Some e →
  ∃ l, ls !! (e - i) = Some l ∧ contains (ch "}") (code_part l) = true.
Proof.
  revert i depth found_open.
  induction ls as [|l ls IH]; intros i d f; simpl; [done|].
  destruct (scan_braces (code_part l) d f) as [[]|[d' f']] eqn:Hs.
  - intros [= <-]. exists l. rewrite Nat.sub_diag. split; [done|].
    by eapply scan_braces_stops_at_brace.
  - intros H. pose proof (block_end_from_bounds _ _ _ _ _ H) as Hb.
    apply IH in H as (l' & Hl' & Hc). exists l'. split; [|done].
    replace (e - i) with (S (e - S i)) by lia. done.
Qed.

(** X1: the index [find_brace_block_end] returns is not before the start and
    is inside the text, and the line there has a closing brace outside its
    literals and line comment. *)
Theorem block_end_in_range (lines : list string) (start_idx e : nat) :
  find_brace_block_end lines start_idx = Some e →
  start_idx ≤ e < length lines
  ∧ ∃ l, lines !! e = Some l ∧ contains (ch "}") (code_part l) = true.
Proof.
  intros H. pose proof (find_brace_block_end_bounds _ _ _ H) as Hb.
  split; [done|]. unfold find_brace_block_end in H.
  apply block_end_from_line in H as (l & Hl & Hc). exists l. split; [|done].
  rewrite lookup_drop in Hl. by replace (start_idx + (e - start_idx)) with e in Hl by lia.
Qed.

Lemma block_end_in_range_witness :
  let lines := source [ "void f(void)"; "{"; "  x = '}';"; "}"; "int y;" ] in
  find_brace_block_end lines 0 = Some 3
  ∧ 0 ≤ 3 < length lines.
Proof.
  intros lines.
  assert (find_brace_block_end lines 0 = Some 3) as H by (vm_compute; reflexivity).
  split; [exact H|]. exact (proj1 (block_end_in_range lines 0 3 H)).
Defined.

(** X2: [find_brace_block_end] returns [None] exactly when the block never
    closes: in the scanned text no closing brace comes after an opening brace
    and balances the braces before it. *)
Theorem block_end_not_found_iff (lines : list string) (start_idx : nat) :
  find_brace_block_end lines start_idx = None
  ↔ ¬ closes_in (scanned_text lines start_idx).
Proof. apply find_brace_block_end_None. Qed.

(** ** Literal masking *)

Lemma mask_from_no_quote q m line :
  (q = dquote ∨ q = squote) → contains (ch q) (mask_from m line) = false.
Proof.
  intros Hq. revert m. induction line as [|c line IH]; intros m; [by destruct m|].
  destruct m as [|q'|q']; cbn [mask_from].
  - destruct (ascii_eqb c dquote || ascii_eqb c squote) eqn:Hc; [apply IH|].
    rewrite contains_cons_char, IH, orb_false_r.
    apply orb_false_elim in Hc as [H1 H2].
    rewrite ascii_eqb_sym. by destruct Hq as [->| ->].
  - destruct (ascii_eqb c backslash); [apply IH|].
    destruct (ascii_eqb c q'); apply IH.
  - apply IH.
Qed.

Lemma mask_from_quote_free line :
  contains (ch dquote) line = false → contains (ch squote) line = false →
  mask_from Outside line = line.
Proof.
  induction line as [|c line IH]; [done|].
  rewrite !contains_cons_char. intros [H1 H1']%orb_false_elim [H2 H2']%orb_false_elim.
  cbn [mask_from]. rewrite (ascii_eqb_sym c dquote), (ascii_eqb_sym c squote), H1, H2.
  simpl. f_equal. by apply IH.
Qed.

Lemma mask_from_length m line :
  String.length (mask_from m line) ≤ String.length line.
Proof.
  revert m. induction line as [|c line IH]; intros m; [by destruct m|].
  destruct m as [|q|q]; cbn [mask_from].
  - destruct (_ || _); [specialize (IH (Inside c)); simpl; lia|].
    specialize (IH Outside). simpl. lia.
  - destruct (ascii_eqb c backslash); [specialize (IH (Escaped q)); simpl; lia|].
    destruct (ascii_eqb c q);
      [specialize (IH Outside)|specialize (IH (Inside q))]; simpl; lia.
  - specialize (IH (Inside q)). simpl. lia.
Qed.

(** X3: [_strip_strings_and_chars] leaves no quote character in the line,
    never makes it longer, returns a line without quotes as it is, and so
    changes nothing when applied twice. *)
Theorem masked_line_has_no_quotes (line : string) :
  contains (ch dquote) (_strip_strings_and_chars line) = false
  ∧ contains (ch squote) (_strip_strings_and_chars line) = false
  ∧ String.length (_strip_strings_and_chars line) ≤ String.length line
  ∧ (contains (ch dquote) line = false → contains (ch squote) line = false →
     _strip_strings_and_chars line = line)
  ∧ _strip_strings_and_chars (_strip_strings_and_chars line)
    = _strip_strings_and_chars line.
Proof.
  unfold _strip_strings_and_chars.
  assert (contains (ch dquote) (mask_from Outside line) = false) as H1
    by (apply mask_from_no_quote; by left).
  assert (contains (ch squote) (mask_from Outside line) = false) as H2
    by (apply mask_from_no_quote; by right).
  split; [done|]. split; [done|]. split; [apply mask_from_length|].
  split; [apply mask_from_quote_free|by apply mask_from_quote_free].
Qed.

Lemma masked_line_has_no_quotes_witness :
  _strip_strings_and_chars "x = y + 1; // done" = "x = y + 1; // done".
Proof.
  apply (masked_line_has_no_quotes "x = y + 1; // done"); reflexivity.
Defined.

(** ** The function map *)

(** A property of the index and the state kept by every iteration holds
    where the loop stops. *)
Lemma index_loop_inv_idx {St : Type} (body : nat → St → nat * St) (bound : nat)
    (Q : nat → St → Prop) :
  (∀ i s, i < bound → Q i s → Q (body i s).1 (body i s).2) →
  ∀ fuel i s, Q i s → ∃ i', Q i' (index_loop body bound fuel i s).
Proof.
  intros Hstep fuel. induction fuel as [|fuel IH]; intros i s Hs; simpl; [by exists i|].
  destruct (Nat.ltb_spec i bound) as [Hlt|]; [|by exists i].
  specialize (Hstep i s Hlt Hs). destruct (body i s) as [i' s']. by apply IH.
Qed.

(** What [build_function_map] has recorded when it stands at line [i]. *)
Lemma build_step_spans lines i fm :
  (∀ e, e ∈ fm →
     e.2.1.1 ≤ e.2.1.2 ∧ e.2.1.2 < i
     ∧ is_forward_declaration (line_at lines e.2.1.1) = false) →
  (∀ a b, a ∈ fm → b ∈ fm → a = b ∨ apart a.2 b.2) →
  (∀ e, e ∈ (build_step lines i fm).2 →
     e.2.1.1 ≤ e.2.1.2 ∧ e.2.1.2 < (build_step lines i fm).1
     ∧ is_forward_declaration (line_at lines e.2.1.1) = false)
  ∧ (∀ a b, a ∈ (build_step lines i fm).2 → b ∈ (build_step lines i fm).2 →
       a = b ∨ apart a.2 b.2).
Proof.
  intros Hall Hapart.
  assert (∀ e, e ∈ fm →
            e.2.1.1 ≤ e.2.1.2 ∧ e.2.1.2 < S i
            ∧ is_forward_declaration (line_at lines e.2.1.1) = false) as Hnext.
  { intros e He. destruct (Hall e He) as (? & ? & ?). split; [done|]. split; [lia|done]. }
  unfold build_step.
  destruct (get_function_name (line_at lines i)) as [[name is_static]|]; [|done].
  destruct (is_forward_declaration (line_at lines i)) eqn:Hfwd; [done|].
  destruct (_ && _); [done|].
  destruct (find_brace_block_end lines i) as [end_|] eqn:Hend; [|done].
  apply find_brace_block_end_bounds in Hend. cbn [fst snd]. split.
  - intros e [->|He]%dict_set_elem.
    + cbn [fst snd]. split; [lia|]. split; [lia|done].
    + destruct (Hall e He) as (? & ? & ?). split; [done|]. split; [lia|done].
  - intros a b [->|Ha]%dict_set_elem [->|Hb]%dict_set_elem.
    + by left.
    + right. right. cbn [fst snd]. by destruct (Hall b Hb) as (? & ? & ?).
    + right. left. cbn [fst snd]. by destruct (Hall a Ha) as (? & ? & ?).
    + by apply Hapart.
Qed.

Lemma build_function_map_spans lines :
  (∀ e, e ∈ build_function_map lines →
     e.2.1.1 ≤ e.2.1.2
     ∧ is_forward_declaration (line_at lines e.2.1.1) = false)
  ∧ (∀ a b, a ∈ build_function_map lines → b ∈ build_function_map lines →
       a = b ∨ apart a.2 b.2).
Proof.
  unfold build_function_map.
  destruct (index_loop_inv_idx (build_step lines) (length lines)
              (λ i fm,
                 (∀ e, e ∈ fm →
                    e.2.1.1 ≤ e.2.1.2 ∧ e.2.1.2 < i
                    ∧ is_forward_declaration (line_at lines e.2.1.1) = false)
                 ∧ (∀ a b, a ∈ fm → b ∈ fm → a = b ∨ apart a.2 b.2))
              ) with (fuel := length lines) (i := 0) (s := @nil (string * span))
    as (i' & Hall & Hapart).
  - intros i fm _ [H1 H2]. by apply build_step_spans.
  - split; [intros e He|intros a b Ha]; by apply elem_of_nil in He || apply elem_of_nil in Ha.
  - split; [|done]. intros e He. destruct (Hall e He) as (? & ? & ?). done.
Qed.

(** X4: every entry of the function map was recorded at a line that
    [get_function_name] accepts with that name and linkage, that is not a
    forward declaration, and whose block closes at the recorded end, inside
    the text; and no name is recorded twice. *)
Theorem function_map_entries_are_definitions
    (lines : list string) (name : string) (start end_ : nat) (is_static : bool) :
  (name, (start, end_, is_static)) ∈ build_function_map lines →
  get_function_name (line_at lines start) = Some (name, is_static)
  ∧ is_forward_declaration (line_at lines start) = false
  ∧ find_brace_block_end lines start = Some end_
  ∧ start ≤ end_ < length lines
  ∧ dict_get name (build_function_map lines) = Some (start, end_, is_static)
  ∧ NoDup (build_function_map lines).*1.
Proof.
  intros Hin.
  destruct (build_function_map_recorded _ _ _ _ _ Hin) as [Hname Hend].
  destruct (build_function_map_spans lines) as [Hall _].
  destruct (Hall _ Hin) as [_ Hfwd]. simpl in Hfwd.
  split; [done|]. split; [done|]. split; [done|].
  split; [by apply find_brace_block_end_bounds|].
  split; [|apply build_function_map_NoDup].
  apply dict_get_elem; [apply build_function_map_NoDup|done].
Qed.

Lemma function_map_entries_are_definitions_witness :
  get_function_name (line_at helper_cascade 4) = Some ("gui_update", false)
  ∧ find_brace_block_end helper_cascade 4 = Some 7.
Proof.
  assert (("gui_update", (4, 7, false)) ∈ build_function_map helper_cascade) as Hin
    by (apply (bool_decide_unpack _); vm_compute; exact I).
  destruct (function_map_entries_are_definitions helper_cascade _ _ _ _ Hin)
    as (H1 & _ & H2 & _).
  split; [exact H1|exact H2].
Defined.

(** X5: the spans of two different functions of the map have no line in
    common. *)
Theorem function_spans_do_not_overlap
    (lines : list string) (name1 name2 : string) (span1 span2 : span) :
  (name1, span1) ∈ build_function_map lines →
  (name2, span2) ∈ build_function_map lines →
  name1 ≠ name2 →
  apart span1 span2.
Proof.
  intros H1 H2 Hne. destruct (build_function_map_spans lines) as [_ Hapart].
  destruct (Hapart _ _ H1 H2) as [[= ]|?]; done.
Qed.

Lemma function_spans_do_not_overlap_witness :
  apart (0, 3, true) (4, 7, false).
Proof.
  apply (function_spans_do_not_overlap helper_cascade "helper" "gui_update").
  - apply (bool_decide_unpack _). vm_compute. exact I.
  - apply (bool_decide_unpack _). vm_compute. exact I.
  - discriminate.
Defined.

(** ** The call graph *)

Lemma callees_fold caller body (fm : func_map) acc x :
  x ∈ foldl (callees_body caller body) acc fm
  ↔ x ∈ acc
    ∨ (x ∈ fm.*1 ∧ x ≠ caller ∧ found (word_re x) body = true).
Proof.
  revert acc. induction fm as [|[callee sp] fm IH]; intros acc; simpl.
  - split; [by left|]. intros [?|[Hx _]]; [done|by apply elem_of_nil in Hx].
  - rewrite IH. unfold callees_body.
    destruct (String.eqb_spec callee caller) as [->|Hne].
    + rewrite elem_of_cons. split; [intros [?|(? & ? & ?)]; auto|].
      intros [?|([->|?] & ? & ?)]; auto. done.
    + destruct (found (word_re callee) body) eqn:Hf.
      * rewrite elem_of_union, elem_of_singleton, elem_of_cons. split.
        -- intros [[?| ->]|(? & ? & ?)]; auto.
        -- intros [?|([->|?] & ? & ?)]; auto.
      * rewrite elem_of_cons. split; [intros [?|(? & ? & ?)]; auto|].
        intros [?|([->|?] & ? & ?)]; auto. congruence.
Qed.

(** X6: [build_call_graph] gives one entry per function of the map, in the
    same order; [callee] is among the callees of [caller] exactly when it is
    another function of the map whose name occurs as a whole word in the
    lines of [caller].  So no function calls itself in the graph, and nothing
    outside the map is ever called. *)
Theorem call_graph_edges (lines : list string) (fm : func_map) :
  (build_call_graph lines fm).*1 = fm.*1
  ∧ ∀ caller callees,
      (caller, callees) ∈ build_call_graph lines fm →
      (caller ∉ callees)
      ∧ ∃ start end_ is_static,
          (caller, (start, end_, is_static)) ∈ fm
          ∧ ∀ callee,
              callee ∈ callees
              ↔ callee ∈ fm.*1 ∧ callee ≠ caller
                ∧ found (word_re callee) (body_of lines start end_) = true.
Proof.
  split.
  - unfold build_call_graph. rewrite <- list_fmap_compose.
    apply list_fmap_ext. by intros i [name [[start end_] is_static]].
  - intros caller callees Hin. unfold build_call_graph in Hin.
    apply list_elem_of_fmap in Hin as ([name [[start end_] is_static]] & Heq & Hfm).
    injection Heq as -> ->.
    assert (∀ callee,
              callee ∈ foldl (callees_body name (body_of lines start end_)) ∅ fm
              ↔ callee ∈ fm.*1 ∧ callee ≠ name
                ∧ found (word_re callee) (body_of lines start end_) = true) as Hchar.
    { intros callee. rewrite callees_fold. split; [|by right].
      intros [Hx|?]; [by apply not_elem_of_empty in Hx|done]. }
    split.
    + intros (_ & Hne & _)%Hchar. done.
    + by exists start, end_, is_static.
Qed.

Lemma call_graph_edges_witness :
  "gui_update" ∉ ({["helper"]} : gset string).
Proof.
  apply (proj2 (call_graph_edges helper_cascade (build_function_map helper_cascade))
           "gui_update" {["helper"]}).
  apply (bool_decide_unpack _). vm_compute. exact I.
Defined.

(** ** External references *)

Lemma ref_scan_true name fm (skip_set : gset string) start end_ j0 ls :
  ref_scan name fm skip_set start end_ j0 ls = true
  ↔ ∃ k line,
      ls !! k = Some line
      ∧ ¬ (start ≤ j0 + k ≤ end_)
      ∧ (∀ sn, sn ∈ skip_set → in_span fm (j0 + k) sn = false)
      ∧ names_forward_decl name line = false
      ∧ found (word_re name) line = true.
Proof.
  revert j0. induction ls as [|l ls IH]; intros j0; simpl.
  - split; [done|]. by intros (k & line & Hk & _).
  - assert ((∃ k line, ls !! k = Some line
               ∧ ¬ (start ≤ S j0 + k ≤ end_)
               ∧ (∀ sn, sn ∈ skip_set → in_span fm (S j0 + k) sn = false)
               ∧ names_forward_decl name line = false
               ∧ found (word_re name) line = true)
            ↔ (∃ k line, (l :: ls) !! S k = Some line
               ∧ ¬ (start ≤ j0 + S k ≤ end_)
               ∧ (∀ sn, sn ∈ skip_set → in_span fm (j0 + S k) sn = false)
               ∧ names_forward_decl name line = false
               ∧ found (word_re name) line = true)) as Hshift.
    { split; intros (k & line & H); exists k, line;
        replace (j0 + S k) with (S j0 + k) in * by lia; done. }
    assert (∀ P : nat → string → Prop,
              (∃ k line, (l :: ls) !! k = Some line ∧ P k line)
              ↔ P 0 l ∨ ∃ k line, (l :: ls) !! S k = Some line ∧ P (S k) line) as Hsplit.
    { intros P. split.
      - intros ([|k] & line & Hk & HP); [left; by injection Hk as <-|right; eauto].
      - intros [HP|(k & line & Hk & HP)]; [exists 0, l; eauto|exists (S k), line; eauto]. }
    rewrite (Hsplit (λ k line,
               ¬ (start ≤ j0 + k ≤ end_)
               ∧ (∀ sn, sn ∈ skip_set → in_span fm (j0 + k) sn = false)
               ∧ names_forward_decl name line = false
               ∧ found (word_re name) line = true)).
    rewrite <- Hshift, <- IH. rewrite Nat.add_0_r.
    case_bool_decide as Hown.
    { split; [by right|]. intros [(Hn & _)|?]; done. }
    case_bool_decide as Hskip.
    { split; [by right|]. intros [(_ & Hall & _)|?]; [|done].
      destruct Hskip as (sn & Hsn & Hin). rewrite (Hall sn Hsn) in Hin. done. }
    destruct (names_forward_decl name l) eqn:Hfwd.
    { split; [by right|]. intros [(_ & _ & ? & _)|?]; done. }
    destruct (found (word_re name) l) eqn:Hfound.
    + split; [intros _; left|done]. split; [done|]. split; [|done].
      intros sn Hsn. destruct (in_span fm j0 sn) eqn:Hin; [|done].
      exfalso. apply Hskip. by exists sn.
    + split; [by right|]. intros [(_ & _ & _ & ?)|?]; done.
Qed.

(** X7: for a name of the function map, [has_external_ref] is true exactly
    when some line mentions the name as a whole word and is outside the
    name's own span, outside the span of every function of the skip set, and
    not a static forward declaration of the name. *)
Theorem external_ref_iff
    (name : string) (lines : list string) (fm : func_map) (skip_set : gset string)
    (start end_ : nat) (is_static : bool) :
  dict_get name fm = Some (start, end_, is_static) →
  has_external_ref name lines fm skip_set = true
  ↔ ∃ j line,
      lines !! j = Some line
      ∧ ¬ (start ≤ j ≤ end_)
      ∧ (∀ sn, sn ∈ skip_set → in_span fm j sn = false)
      ∧ names_forward_decl name line = false
      ∧ found (word_re name) line = true.
Proof.
  intros Hget. unfold has_external_ref. rewrite Hget. apply ref_scan_true.
Qed.

Lemma external_ref_iff_witness :
  has_external_ref "helper" helper_cascade (build_function_map helper_cascade) ∅
  = true.
Proof.
  apply (external_ref_iff "helper" helper_cascade (build_function_map helper_cascade)
           ∅ 0 3 true); [vm_compute; reflexivity|].
  exists 6, ("  helper();" +:+ nl).
  split; [vm_compute; reflexivity|]. split; [lia|].
  split; [intros sn Hsn; by apply not_elem_of_empty in Hsn|].
  split; vm_compute; reflexivity.
Defined.

(** X8: putting more names in the skip set can only hide references, and the
    function map is only looked up: two maps with the same lookups give the
    same answer. *)
Theorem external_ref_antitone
    (name : string) (lines : list string) (fm fm' : func_map)
    (skip_set skip_set' : gset string) :
  skip_set ⊆ skip_set' →
  (∀ k, dict_get k fm = dict_get k fm') →
  has_external_ref name lines fm' skip_set' = true →
  has_external_ref name lines fm skip_set = true.
Proof.
  intros Hsub Hlook H. rewrite (has_external_ref_lookup _ _ fm fm' _ Hlook).
  by eapply has_external_ref_anti.
Qed.

Lemma external_ref_antitone_witness :
  has_external_ref "helper" helper_cascade (build_function_map helper_cascade) ∅
  = true.
Proof.
  apply (external_ref_antitone "helper" helper_cascade
           (build_function_map helper_cascade) (build_function_map helper_cascade)
           ∅ {["process"]}).
  - apply empty_subseteq.
  - reflexivity.
  - vm_compute. reflexivity.
Defined.

(** ** The classifier *)

Lemma phase1_elem (fm : func_map) x :
  x ∈ phase1 fm
  ↔ ∃ sp, (x, sp) ∈ fm ∧ (x ∉ KEEP_FUNCTIONS) ∧ is_explicitly_gui_function x = true.
Proof.
  unfold phase1.
  rewrite (foldl_cond_add
             (λ e, negb (bool_decide (e.1 ∈ KEEP_FUNCTIONS))
                   && is_explicitly_gui_function e.1)).
  - rewrite elem_of_union, elem_of_list_to_set, list_elem_of_fmap. split.
    + intros [Hx|([k sp] & Hk & Hin)]; [by apply not_elem_of_empty in Hx|].
      simpl in Hk. subst k. apply list_elem_of_filter in Hin as [Hp Hin].
      simpl in Hp. apply andb_prop in Hp as [Hk He].
      exists sp. split; [done|]. split; [|done].
      apply negb_true_iff, bool_decide_eq_false in Hk. done.
    + intros (sp & Hin & Hk & He). right. exists (x, sp). split; [done|].
      apply list_elem_of_filter. split; [|done]. simpl.
      by rewrite He, bool_decide_false.
  - intros acc [name sp]. unfold phase1_body. simpl.
    case_bool_decide; [done|]. simpl. by destruct (is_explicitly_gui_function name).
Qed.

Lemma remaining_gui_elem lines (s : gset string) (fm : func_map) x :
  x ∈ foldl (remaining_body lines s) ∅ fm →
  ∃ start end_, (x, (start, end_, true)) ∈ fm.
Proof.
  rewrite (foldl_cond_add
             (λ e, negb (bool_decide (e.1 ∈ s) || bool_decide (e.1 ∈ KEEP_FUNCTIONS)
                         || negb e.2.2)
                   && function_body_has_gui_tokens (body_of lines e.2.1.1 e.2.1.2))).
  - rewrite elem_of_union, elem_of_list_to_set, list_elem_of_fmap.
    intros [Hx|([k [[start end_] is_static]] & Hk & Hin)];
      [by apply not_elem_of_empty in Hx|].
    simpl in Hk. subst k. apply list_elem_of_filter in Hin as [Hp Hin].
    simpl in Hp. apply andb_prop in Hp as [Hp _].
    apply negb_true_iff, orb_false_elim in Hp as [_ Hs].
    apply negb_false_iff in Hs. subst is_static. by exists start, end_.
  - intros acc [name [[start end_] is_static]]. unfold remaining_body. simpl.
    case_bool_decide; [done|]. case_bool_decide; [done|]. simpl.
    destruct is_static; [|done]. simpl. by destruct (function_body_has_gui_tokens _).
Qed.

(** What a sweep loop adds passed the tests of its body. *)
Lemma fold_cand ext cand (l : list (string * span)) acc x :
  x ∈ (foldl (sweep_body ext cand) acc l).1 →
  x ∈ acc.1 ∨ ∃ e, e ∈ l ∧ e.1 = x ∧ cand e = true.
Proof.
  revert acc. induction l as [|e l IH]; intros acc; simpl; [by left|].
  intros [Hx|(e' & He' & ? & ?)]%IH.
  - destruct (sweep_body_cases ext cand acc e) as [[Heq _]|(Heq & _ & Hc & _)];
      rewrite Heq in Hx; [by left|].
    simpl in Hx. apply elem_of_union in Hx as [?|Hx%elem_of_singleton]; [by left|].
    right. exists e. split; [left|done].
  - right. exists e'. split; [by right|done].
Qed.

Lemma loop_cand ext cand (l : list (string * span)) fuel (s : gset string) x :
  x ∈ while_changed fuel (sweep ext cand l) s →
  x ∈ s ∨ ∃ e, e ∈ l ∧ e.1 = x ∧ cand e = true.
Proof.
  revert s. induction fuel as [|fuel IH]; intros s; simpl; [by left|].
  pose proof (fold_cand ext cand l (s, false) x) as Hf. unfold sweep.
  destruct (foldl (sweep_body ext cand) (s, false) l) as [s' changed]; simpl in *.
  destruct changed; [|done]. intros [Hx|?]%IH; [by apply Hf|by right].
Qed.

Lemma entry_static (x : string) (e : string * span) (fm : func_map) :
  e ∈ fm → e.1 = x → e.2.2 = true → ∃ start end_, (x, (start, end_, true)) ∈ fm.
Proof.
  destruct e as [k [[start end_] is_static]]. simpl. intros Hin -> ->.
  by exists start, end_.
Qed.

(** X9: a function of the map whose name is an explicit GUI name, or begins
    with a GUI prefix, and is not protected is always removed. *)
Theorem explicit_gui_function_removed
    (lines : list string) (fm : func_map) (name : string) (sp : span) :
  (name, sp) ∈ fm →
  name ∉ KEEP_FUNCTIONS →
  is_explicitly_gui_function name = true →
  name ∈ find_all_functions_to_remove lines fm.
Proof.
  intros Hin Hk He. unfold find_all_functions_to_remove.
  apply phase4_between, phase3_between, phase2_between, phase1_elem.
  by exists sp.
Qed.

Lemma explicit_gui_function_removed_witness :
  "gui_update"
    ∈ find_all_functions_to_remove helper_cascade (build_function_map helper_cascade).
Proof.
  apply (explicit_gui_function_removed helper_cascade
           (build_function_map helper_cascade) "gui_update" (4, 7, false)).
  - apply (bool_decide_unpack _). vm_compute. exact I.
  - apply (bool_decide_unpack _). vm_compute. exact I.
  - vm_compute. reflexivity.
Defined.

(** X10: the classifier removes only keys of the function map that are not
    protected, and each of them is an explicit GUI function or is recorded as
    static: a function with external linkage that is not named as GUI is
    never removed by the four phases. *)
Theorem removed_is_explicit_or_static
    (lines : list string) (fm : func_map) (name : string) :
  name ∈ find_all_functions_to_remove lines fm →
  (name ∉ KEEP_FUNCTIONS)
  ∧ (∃ sp, (name, sp) ∈ fm)
  ∧ (is_explicitly_gui_function name = true
     ∨ ∃ start end_, (name, (start, end_, true)) ∈ fm).
Proof.
  intros Hin.
  destruct (removable_elem _ _ (classifier_between _ _ _ Hin)) as [Hk Hkey].
  split; [done|]. split; [done|].
  unfold find_all_functions_to_remove, phase4 in Hin. rewrite phase4_is_loop in Hin.
  apply loop_cand in Hin as [Hin|(e & He & Hname & Hc)].
  2: { right. apply (entry_static name e fm He Hname).
       unfold cand4 in Hc. by apply andb_prop in Hc as [_ ?]. }
  unfold phase3 in Hin.
  assert (name ∈ phase2 lines fm (phase1 fm)
          ∨ name ∈ foldl (remaining_body lines (phase2 lines fm (phase1 fm))) ∅ fm)
    as [Hin2|Hrem].
  { revert Hin. case_bool_decide; [by left|].
    case_bool_decide; intros [?|[_ ?]%elem_of_filter]%elem_of_union; auto. }
  2: { right. by eapply remaining_gui_elem. }
  unfold phase2 in Hin2. rewrite phase2_is_loop in Hin2.
  apply loop_cand in Hin2 as [Hin1|(e & He & Hname & Hc)].
  - left. apply phase1_elem in Hin1 as (_ & _ & _ & ?). done.
  - right. apply (entry_static name e fm He Hname).
    unfold cand2 in Hc. apply andb_prop in Hc as [Hc _].
    by apply andb_prop in Hc as [_ ?].
Qed.

Lemma removed_is_explicit_or_static_witness :
  is_explicitly_gui_function "helper" = true
  ∨ ∃ start end_,
      ("helper", (start, end_, true)) ∈ build_function_map helper_cascade.
Proof.
  apply (removed_is_explicit_or_static helper_cascade
           (build_function_map helper_cascade) "helper").
  apply (bool_decide_unpack _). vm_compute. exact I.
Defined.

(** X11: cascade.  A static function of the map that is not protected is
    removed as soon as every line mentioning its name as a whole word is in
    its own span, in the span of a removed function, or is a static forward
    declaration of it. *)
Theorem orphaned_static_function_removed
    (lines : list string) (fm : func_map) (name : string) (start end_ : nat) :
  let removed_set := find_all_functions_to_remove lines fm in
  dict_get name fm = Some (start, end_, true) →
  name ∉ KEEP_FUNCTIONS →
  (∀ j line,
      lines !! j = Some line →
      found (word_re name) line = true →
      start ≤ j ≤ end_
      ∨ (∃ sn, sn ∈ removed_set ∧ in_span fm j sn = true)
      ∨ names_forward_decl name line = true) →
  name ∈ removed_set.
Proof.
  intros removed_set Hget Hk Hrefs.
  pose proof (dict_get_Some _ _ _ Hget) as Hin.
  assert (closed (λ n s, has_external_ref n lines fm s) cand4 fm removed_set) as Hc.
  { unfold removed_set, find_all_functions_to_remove, phase4.
    rewrite phase4_is_loop.
    apply loop_closed_default; intros; by eapply has_external_ref_anti. }
  apply (Hc (name, (start, end_, true)) Hin).
  - unfold cand4. simpl. by rewrite bool_decide_false.
  - simpl. destruct (has_external_ref name lines fm removed_set) eqn:Hext; [|done].
    exfalso. unfold has_external_ref in Hext. rewrite Hget in Hext.
    apply ref_scan_true in Hext as (j & line & Hj & Hown & Hskip & Hfwd & Hfound).
    simpl in *.
    destruct (Hrefs j line Hj Hfound) as [?|[(sn & Hsn & Hspan)|?]]; [done| |congruence].
    rewrite (Hskip sn Hsn) in Hspan. done.
Qed.

Lemma orphaned_static_function_removed_witness :
  "helper"
    ∈ find_all_functions_to_remove helper_cascade (build_function_map helper_cascade).
Proof.
  apply (orphaned_static_function_removed helper_cascade
           (build_function_map helper_cascade) "helper" 0 3).
  - vm_compute. reflexivity.
  - apply (bool_decide_unpack _). vm_compute. exact I.
  - intros j line Hj Hfound.
    assert (find_all_functions_to_remove helper_cascade
              (build_function_map helper_cascade) = {["gui_update"; "helper"]}) as ->.
    { apply (bool_decide_unpack _). vm_compute. exact I. }
    assert (build_function_map helper_cascade
            = [("helper", (0, 3, true)); ("gui_update", (4, 7, false));
               ("process", (8, 10, false))]) as -> by (vm_compute; reflexivity).
    do 11 (destruct j as [|j];
           [injection Hj as <-;
            first [ left; lia
                  | right; left; exists "gui_update";
                    split; [set_solver|vm_compute; reflexivity]
                  | exfalso; vm_compute in Hfound; discriminate ]|]).
    by apply lookup_lt_Some in Hj as ?; simpl in *; lia.
Defined.

(** ** The orphan sweep of Pass 5 *)

Lemma fold_superset ext cand (l : list (string * span)) acc :
  acc.1 ⊆ (foldl (sweep_body ext cand) acc l).1.
Proof.
  revert acc. induction l as [|e l IH]; intros acc; simpl; [done|].
  etrans; [|apply IH].
  destruct (sweep_body_cases ext cand acc e) as [[-> _]|(-> & _)];
    [done|apply union_subseteq_l].
Qed.

Lemma loop_superset ext cand (l : list (string * span)) fuel (s : gset string) :
  s ⊆ while_changed fuel (sweep ext cand l) s.
Proof.
  revert s. induction fuel as [|fuel IH]; intros s; simpl; [done|].
  pose proof (fold_superset ext cand l (s, false)) as Hg. unfold sweep.
  destruct (foldl (sweep_body ext cand) (s, false) l) as [s' []]; simpl in *; [|done].
  etrans; [apply Hg|apply IH].
Qed.

(** What a sweep adds had no outside reference when it was added. *)
Lemma fold_added ext cand (l : list (string * span)) acc x :
  x ∈ (foldl (sweep_body ext cand) acc l).1 →
  x ∈ acc.1
  ∨ ∃ e s, e ∈ l ∧ e.1 = x ∧ cand e = true
           ∧ s ⊆ (foldl (sweep_body ext cand) acc l).1 ∧ ext x s = false.
Proof.
  revert acc. induction l as [|e l IH]; intros acc; simpl; [by left|].
  intros [Hx|(e' & s & He' & ? & ? & ? & ?)]%IH.
  - destruct (sweep_body_cases ext cand acc e) as [[Heq _]|(Heq & _ & Hc & Hext)].
    + rewrite Heq in Hx. by left.
    + rewrite Heq in Hx |- *. simpl in Hx.
      apply elem_of_union in Hx as [?|Hx%elem_of_singleton]; [by left|].
      right. exists e, acc.1. subst x. split; [left|]. do 2 (split; [done|]).
      split; [|done].
      etrans; [|apply (fold_superset ext cand l (acc.1 ∪ {[e.1]}, true))].
      simpl. apply union_subseteq_l.
  - right. exists e', s. split; [by right|done].
Qed.

Lemma loop_added ext cand (l : list (string * span)) fuel (s0 : gset string) x :
  x ∈ while_changed fuel (sweep ext cand l) s0 →
  x ∈ s0
  ∨ ∃ e s, e ∈ l ∧ e.1 = x ∧ cand e = true
           ∧ s ⊆ while_changed fuel (sweep ext cand l) s0 ∧ ext x s = false.
Proof.
  revert s0. induction fuel as [|fuel IH]; intros s0; simpl; [by left|].
  pose proof (fold_added ext cand l (s0, false) x) as Hf. unfold sweep.
  destruct (foldl (sweep_body ext cand) (s0, false) l) as [s' changed] eqn:Hfold;
    simpl in *.
  destruct changed.
  - intros [Hx|?]%IH; [|by right].
    destruct (Hf Hx) as [?|(e & s & ? & ? & ? & Hs & ?)]; [by left|].
    right. exists e, s. do 3 (split; [done|]). split; [|done].
    etrans; [apply Hs|]. apply loop_superset.
  - done.
Qed.

Lemma find_post_orphans_is_loop out :
  find_post_orphans out
  = while_changed (S (length (build_function_map out)))
      (sweep (λ n s, has_external_ref n out (build_function_map out) s) (cand5 out)
         (build_function_map out)) ∅.
Proof.
  unfold find_post_orphans. apply while_changed_ext.
  intros s. apply foldl_ext_in. intros. apply pass5_body_sweep.
Qed.

(** X12: the orphans of Pass 5 are exactly the functions of the rewritten
    text that are not protected, mention a GUI token in their body and are
    not referenced outside their own span and the spans of the orphans.
    Unlike the classifier, the sweep does not ask for [static]. *)
Theorem post_orphans_characterised (output_lines : list string) (name : string) :
  let post_func_map := build_function_map output_lines in
  let post_orphans := find_post_orphans output_lines in
  name ∈ post_orphans
  ↔ (name ∉ KEEP_FUNCTIONS)
    ∧ (∃ start end_ is_static,
          (name, (start, end_, is_static)) ∈ post_func_map
          ∧ function_body_has_gui_tokens (body_of output_lines start end_) = true)
    ∧ has_external_ref name output_lines post_func_map post_orphans = false.
Proof.
  intros fm orphans. unfold orphans. rewrite find_post_orphans_is_loop. fold fm.
  set (ext := λ n s, has_external_ref n output_lines fm s).
  split.
  - intros Hin. pose proof Hin as Hin'.
    apply loop_added in Hin' as [Hin'|(e & s & He & Hname & Hc & Hs & Hext)];
      [by apply not_elem_of_empty in Hin'|].
    destruct e as [k [[start end_] is_static]]. simpl in Hname. subst k.
    unfold cand5 in Hc. simpl in Hc. apply andb_prop in Hc as [Hk Htok].
    apply negb_true_iff, bool_decide_eq_false in Hk.
    split; [done|]. split; [by exists start, end_, is_static|].
    destruct (has_external_ref name output_lines fm _) eqn:Hfinal; [|done].
    unfold ext in Hext. by rewrite (has_external_ref_anti _ _ _ _ _ Hs Hfinal) in Hext.
  - intros (Hk & (start & end_ & is_static & Hin & Htok) & Hext).
    assert (closed ext (cand5 output_lines) fm
              (while_changed (S (length fm)) (sweep ext (cand5 output_lines) fm) ∅))
      as Hc.
    { apply loop_closed_default. intros. by eapply has_external_ref_anti. }
    apply (Hc (name, (start, end_, is_static)) Hin).
    + unfold cand5. simpl. by rewrite bool_decide_false, Htok.
    + done.
Qed.

(** ** The text a pattern consumes *)

Lemma str_append_assoc (a b c : string) : (a +:+ b) +:+ c = a +:+ (b +:+ c).
Proof.
  induction a as [|x a IH]; [done|].
  change (String x ((a +:+ b) +:+ c) = String x (a +:+ (b +:+ c))). by f_equal.
Qed.

Lemma startswith_append p a b :
  startswith p a = true → startswith p (a +:+ b) = true.
Proof.
  revert a. induction p as [|x p IH]; intros a; [done|].
  destruct a as [|y a]; [done|].
  change (String y a +:+ b) with (String y (a +:+ b)). cbn [startswith].
  intros [-> H]%andb_prop. simpl. by apply IH.
Qed.

Lemma contains_append_l lit a b :
  contains lit a = true → contains lit (a +:+ b) = true.
Proof.
  induction a as [|y a IH].
  - destruct lit; [|done]. intros _. by destruct b.
  - change (String y a +:+ b) with (String y (a +:+ b)). cbn [contains].
    intros [H|H]%orb_prop.
    + apply (startswith_append _ _ b) in H.
      change (String y a +:+ b) with (String y (a +:+ b)) in H.
      rewrite H. done.
    + rewrite (IH H). apply orb_true_r.
Qed.

Lemma contains_append_r lit a b :
  contains lit b = true → contains lit (a +:+ b) = true.
Proof.
  intros H. induction a as [|y a IH]; [done|].
  change (String y a +:+ b) with (String y (a +:+ b)). cbn [contains].
  rewrite IH. apply orb_true_r.
Qed.

Lemma step_class_rest p st st' :
  step_class p st = Some st' → ∃ c, rest st = String c (rest st') ∧ p c = true.
Proof.
  unfold step_class. destruct (rest st) as [|c s]; [done|].
  destruct (p c) eqn:Hp; [|done]. intros [= <-]. by exists c.
Qed.

Lemma step_lit_rest eq l st st' :
  step_lit eq l st = Some st' → ∃ c, rest st = c +:+ rest st'.
Proof.
  revert st. induction l as [|a l IH]; intros st; simpl.
  - intros [= <-]. by exists EmptyString.
  - destruct (step_class (eq a) st) as [m|] eqn:Hm; [|done].
    apply step_class_rest in Hm as (c & Hc & _).
    intros (c' & Hc')%IH. exists (String c c'). rewrite Hc, Hc'. done.
Qed.

Lemma step_lit_exact l st st' :
  step_lit ascii_eqb l st = Some st' → rest st = l +:+ rest st'.
Proof.
  revert st. induction l as [|a l IH]; intros st; simpl.
  - by intros [= <-].
  - destruct (step_class (ascii_eqb a) st) as [m|] eqn:Hm; [|done].
    apply step_class_rest in Hm as (c & Hc & ->%ascii_eqb_eq).
    intros H%IH. by rewrite Hc, H.
Qed.


(** A match of [r] consumes a piece of the text; when [must_contain lit r]
    holds, that piece contains [lit]. *)
Lemma reach_consumed lit r st st' :
  reach r st st' →
  ∃ c, rest st = c +:+ rest st' ∧ (must_contain lit r = true → contains lit c = true).
Proof.
  revert st st'.
  induction r as [l|l| | | |items|items|r1 IH1 r2 IH2|r1 IH1 r2 IH2
                  |r1 IH1|r1 IH1|r1 IH1|n r1 IH1| | | ];
    intros st st' H; cbn [reach must_contain] in *.
  - exists l. split; [by apply step_lit_exact|done].
  - apply step_lit_rest in H as (c & ?). by exists c.
  - apply step_class_rest in H as (c & ? & _). by exists (String c EmptyString).
  - apply step_class_rest in H as (c & ? & _). by exists (String c EmptyString).
  - apply step_class_rest in H as (c & ? & _). by exists (String c EmptyString).
  - apply step_class_rest in H as (c & ? & _). by exists (String c EmptyString).
  - apply step_class_rest in H as (c & ? & _). by exists (String c EmptyString).
  - destruct H as (m & H1 & H2).
    apply IH1 in H1 as (c1 & E1 & C1). apply IH2 in H2 as (c2 & E2 & C2).
    exists (c1 +:+ c2). split; [by rewrite str_append_assoc, <- E2|].
    intros [?|?]%orb_prop; [apply contains_append_l|apply contains_append_r]; auto.
  - destruct H as [H|H].
    + apply IH1 in H as (c & ? & C). exists c. split; [done|].
      intros [? _]%andb_prop. auto.
    + apply IH2 in H as (c & ? & C). exists c. split; [done|].
      intros [_ ?]%andb_prop. auto.
  - induction H as [|a b c Hab _ (c2 & E2 & _)]; [by exists EmptyString|].
    apply IH1 in Hab as (c1 & E1 & _).
    exists (c1 +:+ c2). split; [by rewrite str_append_assoc, <- E2|done].
  - destruct H as (m & H1 & H2). apply IH1 in H1 as (c1 & E1 & C1).
    assert (∃ c2, rest m = c2 +:+ rest st') as (c2 & E2).
    { clear E1. induction H2 as [|a b c Hab _ (c2 & E2)]; [by exists EmptyString|].
      apply IH1 in Hab as (c1' & E1' & _).
      exists (c1' +:+ c2). by rewrite str_append_assoc, <- E2. }
    exists (c1 +:+ c2). split; [by rewrite str_append_assoc, <- E2|].
    intros ?. apply contains_append_l. auto.
  - destruct H as [H| ->]; [|by exists EmptyString].
    apply IH1 in H as (c & ? & _). by exists c.
  - destruct H as (m & H & ->). apply IH1 in H as (c & ? & ?). by exists c.
  - destruct H as [_ ->]. by exists EmptyString.
  - destruct H as [_ ->]. by exists EmptyString.
  - destruct H as [_ ->]. by exists EmptyString.
Qed.

Lemma re_match_contains lit r s c :
  must_contain lit r = true → re_match r s = Some c → contains lit s = true.
Proof.
  intros Hm (st' & Hr & _)%re_match_sound.
  apply (reach_consumed lit) in Hr as (t & Hs & Ht). simpl in Hs. rewrite Hs.
  apply contains_append_l. auto.
Qed.

Lemma re_match_without lit r s :
  must_contain lit r = true → contains lit s = false → re_match r s = None.
Proof.
  intros Hm Hc. destruct (re_match r s) as [c|] eqn:H; [|done].
  by rewrite (re_match_contains lit r s c Hm H) in Hc.
Qed.

Lemma matches_without lit r s :
  must_contain lit r = true → contains lit s = false → matches r s = false.
Proof.
  intros Hm Hc. unfold matches. rewrite (re_match_without lit r s Hm Hc).
  apply bool_decide_eq_false. by intros [? ?].
Qed.

(** ** The name [get_function_name] returns *)








(** ** The resource rewriter *)

Lemma strip_step_plain lines func_end i result :
  contains "self->gui_data" (line_at lines i) = false →
  strip_step lines func_end i (None, result)
  = (S i, (None, result ++ [line_at lines i])).
Proof.
  intros Hc. unfold strip_step.
  rewrite (re_match_without "self->gui_data" GUI_DATA_ASSIGN_RE _ eq_refl Hc).
  rewrite (matches_without "self->gui_data" GUI_DATA_FIELD_RE _ eq_refl Hc).
  rewrite (matches_without "self->gui_data" GUI_IF_ONELINE_RE _ eq_refl Hc).
  by rewrite (matches_without "self->gui_data" GUI_IF_RE _ eq_refl Hc).
Qed.

Lemma strip_loop_plain lines func_end fuel i result :
  (∀ j, i ≤ j ≤ func_end → contains "self->gui_data" (line_at lines j) = false) →
  index_loop (strip_step lines func_end) (S func_end) fuel i (None, result)
  = (None, result ++ (line_at lines <$> seq i (fuel `min` (S func_end - i)))).
Proof.
  revert i result. induction fuel as [|fuel IH]; intros i result Hno;
    cbn [index_loop].
  - simpl. by rewrite app_nil_r.
  - destruct (Nat.ltb_spec i (S func_end)) as [Hlt|Hge].
    + rewrite strip_step_plain by (apply Hno; lia).
      rewrite IH by (intros; apply Hno; lia).
      replace (S func_end - i) with (S (S func_end - S i)) by lia.
      simpl. by rewrite <- app_assoc.
    + replace (S func_end - i) with 0 by lia. simpl. by rewrite app_nil_r.
Qed.

Lemma line_at_seq lines i n :
  i + n ≤ length lines → line_at lines <$> seq i n = take n (drop i lines).
Proof.
  revert i. induction n as [|n IH]; intros i Hle; simpl; [done|].
  destruct (lookup_lt_is_Some_2 lines i) as [x Hx]; [lia|].
  rewrite (drop_S _ _ _ Hx). simpl. unfold line_at at 1. rewrite Hx. simpl.
  f_equal. apply IH. lia.
Qed.

(** X14: the rewriter needs the accessor.  On a span none of whose lines
    contains [self->gui_data], [strip_gui_data_in_function] returns the lines
    of the span as they are: no variable is bound, and no pattern matches. *)
Theorem rewriter_needs_accessor (lines : list string) (func_start func_end : nat) :
  func_end < length lines →
  (∀ j line, func_start ≤ j ≤ func_end → lines !! j = Some line →
             contains "self->gui_data" line = false) →
  strip_gui_data_in_function lines func_start func_end
  = slice lines func_start func_end.
Proof.
  intros Hlen Hno. unfold strip_gui_data_in_function, slice.
  rewrite strip_loop_plain.
  - simpl. rewrite Nat.min_id.
    destruct (decide (func_start ≤ S func_end)); [apply line_at_seq; lia|].
    by replace (S func_end - func_start) with 0 by lia.
  - intros j Hj. destruct (lookup_lt_is_Some_2 lines j) as [x Hx]; [lia|].
    unfold line_at. rewrite Hx. simpl. by apply (Hno j).
Qed.

Lemma rewriter_needs_accessor_witness :
  strip_gui_data_in_function helper_cascade 8 10 = slice helper_cascade 8 10.
Proof.
  apply (rewriter_needs_accessor helper_cascade 8 10).
  - vm_compute. lia.
  - intros j line Hj Hline.
    do 11 (destruct j as [|j];
           [first [lia | injection Hline as <-; vm_compute; reflexivity]|]).
    lia.
Defined.

Lemma find_open_ge ls else_open : else_open ≤ find_open ls else_open.
Proof.
  revert else_open. induction ls as [|l ls IH]; intros n; simpl; [done|].
  destruct (contains _ l); [done|]. specialize (IH (S n)). lia.
Qed.

Lemma length_slice (lines : list string) a b : length (slice lines a b) ≤ S b - a.
Proof. unfold slice. rewrite length_take. lia. Qed.

Lemma strip_var_if_measure lines func_end i indent i' added :
  strip_var_if lines func_end i indent = Some (i', added) →
  i' ≤ S func_end ∧ length added + i ≤ i'.
Proof.
  unfold strip_var_if.
  destruct (block_within lines i func_end) as [if_block_end|] eqn:Hif; [|done].
  apply block_within_bounds in Hif.
  pose proof (skip_blank_ge (slice lines (S if_block_end) func_end) (S if_block_end))
    as Hskip.
  set (next_i := skip_blank _ _) in *.
  destruct (if _ : bool then block_within _ _ _ else None) as [else_block_end|] eqn:Helse.
  - destruct (_ && _); [|done]. apply block_within_bounds in Helse.
    pose proof (find_open_ge (slice lines next_i else_block_end) next_i) as Hopen.
    intros [= <- <-]. rewrite length_fmap.
    pose proof (length_slice lines
                  (S (find_open (slice lines next_i else_block_end) next_i))
                  (else_block_end - 1)).
    lia.
  - intros [= <- <-]. simpl. lia.
Qed.

Lemma strip_bound_measure lines func_end i v line i' added :
  i ≤ func_end →
  strip_bound lines func_end i v line = Some (i', added) →
  i' ≤ S func_end ∧ length added + i ≤ i'.
Proof.
  intros Hi. unfold strip_bound.
  destruct (match re_match (var_if_re v) line with
            | Some g => strip_var_if lines func_end i (group 1 g)
            | None => None
            end) as [[i1 a1]|] eqn:Hv.
  - intros [= <- <-]. destruct (re_match (var_if_re v) line); [|done].
    by eapply strip_var_if_measure.
  - destruct (block_within lines i func_end) as [e|] eqn:He;
      [apply block_within_bounds in He|];
      destruct (matches (var_and_re v) line), (matches (and_var_re v) line),
        (matches (var_field_re v) line);
      try done; intros [= <- <-]; simpl; lia.
Qed.

Lemma strip_step_measure lines func_end i st :
  i ≤ func_end →
  (strip_step lines func_end i st).1 ≤ S func_end
  ∧ length (strip_step lines func_end i st).2.2 + i
    ≤ length st.2 + (strip_step lines func_end i st).1.
Proof.
  intros Hi. destruct st as [gui_data_var result]. unfold strip_step.
  destruct (re_match GUI_DATA_ASSIGN_RE _); [simpl; lia|].
  destruct (matches GUI_DATA_FIELD_RE _); [simpl; lia|].
  destruct (matches GUI_IF_ONELINE_RE _); [simpl; lia|].
  destruct (if matches GUI_IF_RE _ then _ else _) as [e|] eqn:He.
  { destruct (matches GUI_IF_RE _); [|done].
    apply block_within_bounds in He. simpl. lia. }
  destruct gui_data_var as [v|]; [|simpl; rewrite length_app; simpl; lia].
  destruct (strip_bound _ _ _ _ _) as [[i' added]|] eqn:Hb;
    simpl; rewrite length_app; simpl; [|lia].
  apply strip_bound_measure in Hb; [lia|done].
Qed.

Lemma rewriter_length (lines : list string) (func_start func_end : nat) :
  length (strip_gui_data_in_function lines func_start func_end)
  ≤ S func_end - func_start.
Proof.
  unfold strip_gui_data_in_function.
  destruct (index_loop_inv_idx (strip_step lines func_end) (S func_end)
              (λ i st, i ≤ S func_end ∧ length st.2 + func_start ≤ i
                       ∨ S func_end < i ∧ st.2 = [])
              ) with (fuel := S func_end - func_start) (i := func_start)
              (s := (None, []) : strip_state) as (i' & Hi').
  - intros i st Hlt [[_ Hlen]|[Hgt _]]; [|lia]. left.
    pose proof (strip_step_measure lines func_end i st). lia.
  - destruct (decide (func_start ≤ S func_end)); [left|right]; simpl;
      (split; [lia|first [done|lia]]).
  - simpl in Hi'. destruct Hi' as [[? ?]|[? ->]]; simpl; lia.
Qed.

(** X15: the rewriter returns at most as many lines as the span has; what it
    appends for a step never outnumbers the lines the step consumes. *)
Theorem rewriter_never_adds_lines (lines : list string) (func_start func_end : nat) :
  length (strip_gui_data_in_function lines func_start func_end)
  ≤ S func_end - func_start.
Proof. apply rewriter_length. Qed.

(** ** Passes that only delete lines *)

Lemma take_sublist_le (lines : list string) i j :
  i ≤ j → take i lines `sublist_of` take j lines.
Proof.
  intros Hle. replace (take i lines) with (take i (take j lines)).
  - apply sublist_take.
  - rewrite take_take. f_equal. lia.
Qed.

Lemma take_line_at (lines : list string) i :
  i < length lines → take (S i) lines = take i lines ++ [line_at lines i].
Proof.
  intros Hlt. destruct (lookup_lt_is_Some_2 lines i Hlt) as [x Hx].
  unfold line_at. rewrite Hx. by apply take_S_r.
Qed.

Lemma pass2_step_prefix lines to_remove i out :
  i < length lines → out `sublist_of` take i lines →
  (pass2_step lines to_remove i out).1 ≤ length lines
  ∧ (pass2_step lines to_remove i out).2
      `sublist_of` take (pass2_step lines to_remove i out).1 lines.
Proof.
  intros Hlt Hsub.
  assert (∀ e, find_brace_block_end lines i = Some e →
               S e ≤ length lines ∧ out `sublist_of` take (S e) lines) as Hskip.
  { intros e He%find_brace_block_end_bounds. split; [lia|].
    etrans; [apply Hsub|]. apply take_sublist_le. lia. }
  assert (S i ≤ length lines ∧ out `sublist_of` take (S i) lines) as Hnext.
  { split; [lia|]. etrans; [apply Hsub|]. apply take_sublist_le. lia. }
  unfold pass2_step.
  destruct (is_gui_include _); [done|].
  destruct (commented_gui_include _); [done|].
  destruct (if is_gui_data_struct_start _ then _ else _) as [e|] eqn:He.
  { destruct (is_gui_data_struct_start _); [|done]. by apply Hskip. }
  destruct (removed_block lines to_remove i) as [e|] eqn:Hr.
  { apply Hskip. unfold removed_block in Hr.
    destruct (get_function_name _) as [[name is_static]|]; [|done].
    destruct (_ && _); [|done]. by destruct (negb _). }
  simpl. split; [lia|]. rewrite take_line_at by done. by apply sublist_app.
Qed.

Lemma pass2_sublist lines to_remove : pass2 lines to_remove `sublist_of` lines.
Proof.
  unfold pass2.
  destruct (index_loop_inv_idx (pass2_step lines to_remove) (length lines)
              (λ i out, i ≤ length lines ∧ out `sublist_of` take i lines))
    with (fuel := length lines) (i := 0) (s := @nil string) as (i' & _ & Hsub).
  - intros i out Hlt [_ Hsub]. by apply pass2_step_prefix.
  - split; [lia|]. apply sublist_nil_l.
  - etrans; [apply Hsub|apply sublist_take].
Qed.

Lemma pass5_step_prefix lines post_orphans i out :
  i < length lines → out `sublist_of` take i lines →
  (pass5_step lines post_orphans i out).1 ≤ length lines
  ∧ (pass5_step lines post_orphans i out).2
      `sublist_of` take (pass5_step lines post_orphans i out).1 lines.
Proof.
  intros Hlt Hsub. unfold pass5_step.
  destruct (orphan_block lines post_orphans i) as [e|] eqn:Hr; simpl.
  - unfold orphan_block in Hr.
    destruct (get_function_name _) as [[name is_static]|]; [|done].
    destruct (_ && _); [|done]. apply find_brace_block_end_bounds in Hr.
    split; [lia|]. etrans; [apply Hsub|]. apply take_sublist_le. lia.
  - split; [lia|]. rewrite take_line_at by done. by apply sublist_app.
Qed.

Lemma remove_forward_declarations_sublist lines names :
  remove_forward_declarations lines names `sublist_of` lines.
Proof.
  induction lines as [|l lines IH]; simpl; [done|].
  destruct (re_match FORWARD_DECL_RE (strip l)) as [m|].
  - case_bool_decide; [by apply sublist_cons|by apply sublist_skip].
  - by apply sublist_skip.
Qed.

Lemma pass5_sublist lines post_orphans : pass5 lines post_orphans `sublist_of` lines.
Proof.
  unfold pass5. case_bool_decide; [done|].
  etrans; [apply remove_forward_declarations_sublist|].
  destruct (index_loop_inv_idx (pass5_step lines post_orphans) (length lines)
              (λ i out, i ≤ length lines ∧ out `sublist_of` take i lines))
    with (fuel := length lines) (i := 0) (s := @nil string) as (i' & _ & Hsub).
  - intros i out Hlt [_ Hsub]. by apply pass5_step_prefix.
  - split; [lia|]. apply sublist_nil_l.
  - etrans; [apply Hsub|apply sublist_take].
Qed.

Lemma pass6_sublist lines : pass6 lines `sublist_of` lines.
Proof.
  induction lines as [|l lines IH]; simpl; [done|].
  destruct (stray_gui_data_line l); [by apply sublist_cons|by apply sublist_skip].
Qed.

Lemma pass7_sublist lines n : pass7 lines n `sublist_of` lines.
Proof.
  revert n. induction lines as [|l lines IH]; intros n; simpl; [done|].
  destruct (String.eqb _ _); [case_bool_decide|];
    first [apply sublist_skip, IH | apply sublist_cons, IH].
Qed.

(** X16: the assembly of Pass 2 with the forward declaration cleanup of
    Pass 3, the orphan removal of Pass 5, and the cleanups of Passes 6 and 7
    only delete lines: what they return is what they were given with some
    lines left out, none altered, added or moved. *)
Theorem deleting_passes_keep_order (lines : list string) (names : gset string) :
  remove_forward_declarations (pass2 lines names) names `sublist_of` lines
  ∧ pass5 lines names `sublist_of` lines
  ∧ pass7 (pass6 lines) 0 `sublist_of` lines.
Proof.
  split; [|split].
  - etrans; [apply remove_forward_declarations_sublist|apply pass2_sublist].
  - apply pass5_sublist.
  - etrans; [apply pass7_sublist|apply pass6_sublist].
Qed.

(** X17: removing the forward declarations of one set and then of another
    is removing those of their union, so the two calls of Passes 3 and 5
    amount to one; and with no name to remove the text is unchanged. *)
Theorem forward_declaration_removal_composes
    (lines : list string) (names1 names2 : gset string) :
  remove_forward_declarations (remove_forward_declarations lines names1) names2
  = remove_forward_declarations lines (names1 ∪ names2)
  ∧ remove_forward_declarations lines ∅ = lines.
Proof.
  split.
  - induction lines as [|l lines IH]; simpl; [done|].
    destruct (re_match FORWARD_DECL_RE (strip l)) as [m|] eqn:Hm.
    + destruct (decide (group 1 m ∈ names1)) as [H1|H1].
      * rewrite bool_decide_true by done.
        rewrite (bool_decide_true (_ ∈ names1 ∪ names2)) by set_solver. done.
      * rewrite bool_decide_false by done. simpl. rewrite Hm.
        destruct (decide (group 1 m ∈ names2)) as [H2|H2].
        -- rewrite bool_decide_true by done.
           rewrite (bool_decide_true (_ ∈ names1 ∪ names2)) by set_solver. done.
        -- rewrite bool_decide_false by done.
           rewrite (bool_decide_false (_ ∈ names1 ∪ names2)) by set_solver.
           by f_equal.
    + simpl. rewrite Hm. by f_equal.
  - induction lines as [|l lines IH]; simpl; [done|].
    destruct (re_match FORWARD_DECL_RE (strip l)) as [m|]; [|by f_equal].
    rewrite bool_decide_false by set_solver. by f_equal.
Qed.

(** ** Include lines *)

Lemma gui_include_line_stable l l0 :
  strip l = strip l0 → gui_include_line l = gui_include_line l0.
Proof.
  intros H. unfold gui_include_line, is_gui_include, commented_gui_include.
  by rewrite H.
Qed.

Lemma gui_include_line_blank l : strip l = EmptyString → gui_include_line l = false.
Proof.
  intros H. unfold gui_include_line, is_gui_include, commented_gui_include.
  by rewrite H.
Qed.

Lemma pass2_no_include lines to_remove :
  Forall (λ l, gui_include_line l = false) (pass2 lines to_remove).
Proof.
  unfold pass2.
  apply (index_loop_inv (pass2_step lines to_remove) (length lines)
           (Forall (λ l, gui_include_line l = false))); [|done].
  intros i out _ Hout. unfold pass2_step.
  destruct (is_gui_include _) eqn:H1; [done|].
  destruct (commented_gui_include _) eqn:H2; [done|].
  destruct (if is_gui_data_struct_start _ then _ else _); [done|].
  destruct (removed_block _ _ _); [done|]. simpl.
  apply Forall_app. split; [done|]. apply Forall_singleton.
  unfold gui_include_line. by rewrite H1, H2.
Qed.

Lemma final_lines_unfold lines :
  final_lines (strip_lines lines)
  = let to_remove := find_all_functions_to_remove lines (build_function_map lines) in
    let output4b :=
      pass4b (pass4 (remove_forward_declarations (pass2 lines to_remove) to_remove)) in
    pass7 (pass6 (pass5 output4b (find_post_orphans output4b))) 0.
Proof. reflexivity. Qed.

(** X18: no line of the final text is a GUI include, plain or commented
    out: Pass 2 drops them all and no later pass brings one back. *)
Theorem no_gui_include_in_output (lines : list string) (line : string) :
  line ∈ final_lines (strip_lines lines) →
  is_gui_include line = false ∧ commented_gui_include line = false.
Proof.
  intros Hin. apply orb_false_elim. change (gui_include_line line = false).
  revert line Hin. apply Forall_forall. rewrite final_lines_unfold. cbv zeta.
  set (to_remove := find_all_functions_to_remove _ _).
  eapply (texts_from_Forall (λ l, gui_include_line l = false)).
  - intros l l0 Heq H0. by rewrite (gui_include_line_stable l l0 Heq).
  - apply gui_include_line_blank.
  - eapply texts_from_trans; [apply texts_from_sub, remove_forward_declarations_sub|].
    eapply texts_from_trans; [apply pass4_texts|].
    eapply texts_from_trans; [apply pass4b_texts|].
    eapply texts_from_trans; [apply pass5_texts|]. apply final_from_pass5.
  - apply pass2_no_include.
Qed.

Lemma no_gui_include_in_output_witness :
  is_gui_include (String.append "void process(void)" nl) = false
  ∧ commented_gui_include (String.append "void process(void)" nl) = false.
Proof.
  apply (no_gui_include_in_output helper_cascade).
  apply (bool_decide_unpack _). vm_compute. exact I.
Defined.

(** ** Blank lines *)

Lemma pass7_runs lines n :
  (∀ i a b c,
      pass7 lines n !! i = Some a → pass7 lines n !! S i = Some b →
      pass7 lines n !! S (S i) = Some c →
      blank a = true → blank b = true → blank c = false)
  ∧ (1 ≤ n → ∀ a b,
       pass7 lines n !! 0 = Some a → pass7 lines n !! 1 = Some b →
       blank a = true → blank b = false)
  ∧ (2 ≤ n → ∀ a, pass7 lines n !! 0 = Some a → blank a = false).
Proof.
  revert n. induction lines as [|l lines IH]; intros n; simpl.
  { split; [|split]; intros; by simplify_eq. }
  destruct (String.eqb (strip l) EmptyString) eqn:Hl.
  - case_bool_decide as Hn.
    + destruct (IH (S n)) as (IH1 & IH2 & IH3). split; [|split].
      * intros [|i] a b c Ha Hb Hc; simpl in *.
        -- intros _. apply (IH2 ltac:(lia) b c Hb Hc).
        -- by apply (IH1 i).
      * intros Hn1 a b Ha Hb _. simpl in *. apply (IH3 ltac:(lia) b Hb).
      * lia.
    + destruct (IH (S n)) as (IH1 & IH2 & IH3). split; [done|].
      split.
      * intros _ a b Ha Hb Ba. apply (IH2 ltac:(lia) a b Ha Hb Ba).
      * intros _ a Ha. apply (IH3 ltac:(lia) a Ha).
  - destruct (IH 0) as (IH1 & _ & _). split; [|split].
    + intros [|i] a b c Ha Hb Hc; simpl in *.
      * injection Ha as <-. unfold blank. by rewrite Hl.
      * by apply (IH1 i).
    + intros _ a b Ha _. simpl in Ha. injection Ha as <-. unfold blank. by rewrite Hl.
    + intros _ a Ha. simpl in Ha. injection Ha as <-. done.
Qed.

(** X19: the final text never has three blank lines in a row. *)
Theorem no_three_blank_lines (lines : list string) (i : nat) (a b c : string) :
  final_lines (strip_lines lines) !! i = Some a →
  final_lines (strip_lines lines) !! S i = Some b →
  final_lines (strip_lines lines) !! S (S i) = Some c →
  ¬ (blank a = true ∧ blank b = true ∧ blank c = true).
Proof.
  rewrite final_lines_unfold. cbv zeta.
  set (output5 := pass6 _). intros Ha Hb Hc (Ba & Bb & Bc).
  destruct (pass7_runs output5 0) as (H & _).
  by rewrite (H i a b c Ha Hb Hc Ba Bb) in Bc.
Qed.

Lemma no_three_blank_lines_witness :
  ¬ (blank (String.append "void process(void)" nl) = true
     ∧ blank (String.append "{" nl) = true ∧ blank (String.append "}" nl) = true).
Proof.
  apply (no_three_blank_lines helper_cascade 0); vm_compute; reflexivity.
Defined.

Lemma pass7_filter lines n :
  filter (λ l, blank l = false) (pass7 lines n) = filter (λ l, blank l = false) lines.
Proof.
  revert n. induction lines as [|l lines IH]; intros n; simpl; [done|].
  destruct (String.eqb (strip l) EmptyString) eqn:Hl.
  - rewrite (filter_cons_False _ l lines) by (unfold blank; by rewrite Hl).
    case_bool_decide; [|apply IH].
    rewrite filter_cons_False by (unfold blank; by rewrite Hl). apply IH.
  - rewrite !filter_cons_True by done. f_equal. apply IH.
Qed.

Lemma pass7_again lines n : pass7 (pass7 lines n) (n `min` 2) = pass7 lines n.
Proof.
  revert n. induction lines as [|l lines IH]; intros n; simpl; [done|].
  destruct (String.eqb (strip l) EmptyString) eqn:Hl.
  - case_bool_decide as Hn.
    + cbn [pass7]. rewrite Hl. rewrite bool_decide_true by lia.
      f_equal. rewrite <- (IH (S n)) at 2. f_equal; lia.
    + rewrite <- (IH (S n)) at 2. f_equal; lia.
  - cbn [pass7]. rewrite Hl. f_equal. apply (IH 0).
Qed.

(** X20: collapsing blank lines keeps every line that is not blank, in
    order, and collapsing twice changes nothing more. *)
Theorem blank_collapse_keeps_text (lines : list string) :
  filter (λ l, blank l = false) (pass7 lines 0) = filter (λ l, blank l = false) lines
  ∧ pass7 (pass7 lines 0) 0 = pass7 lines 0.
Proof. split; [apply pass7_filter|apply (pass7_again lines 0)]. Qed.

(** ** The splices of Pass 4 *)

Lemma elem_of_insert_desc x l w : w ∈ insert_desc x l ↔ w = x ∨ w ∈ l.
Proof.
  induction l as [|y l IH]; simpl.
  - rewrite list_elem_of_singleton. set_solver.
  - destruct (_ <=? _)%nat; rewrite !elem_of_cons; [done|]. rewrite IH. tauto.
Qed.

Lemma elem_of_sort_desc l w : w ∈ sort_desc l ↔ w ∈ l.
Proof.
  unfold sort_desc. induction l as [|x l IH]; simpl; [done|].
  rewrite elem_of_insert_desc, elem_of_cons, IH. done.
Qed.

(** In the order Pass 4 works in, every function ends before the ones
    treated earlier start. *)
Lemma insert_desc_sorted x l :
  x.2.1.1 ≤ x.2.1.2 →
  Forall (λ y, y.2.1.1 ≤ y.2.1.2 ∧ apart x.2 y.2) l →
  StronglySorted (λ a b : string * span, b.2.1.2 < a.2.1.1) l →
  StronglySorted (λ a b : string * span, b.2.1.2 < a.2.1.1) (insert_desc x l).
Proof.
  destruct x as [xn [[xs xe] xb]]. cbn [fst snd]. intros Hx.
  induction l as [|[yn [[ys ye] yb]] l IH]; intros Hall Hs; cbn [insert_desc].
  - by repeat constructor.
  - apply Forall_cons in Hall as [[Hy Hxy] Hall].
    apply StronglySorted_inv in Hs as [Hs Hyl].
    unfold apart in Hxy. cbn [fst snd] in *.
    destruct (ys <=? xs)%nat eqn:Hle;
      [apply Nat.leb_le in Hle|apply Nat.leb_gt in Hle].
    + constructor; [by constructor|]. constructor.
      * cbn [fst snd]. lia.
      * eapply Forall_impl; [apply Hyl|]. cbn [fst snd]. intros z Hz. lia.
    + constructor; [by apply IH|].
      apply Forall_forall. intros w [->|Hw]%elem_of_insert_desc.
      * cbn [fst snd]. lia.
      * by eapply Forall_forall in Hyl.
Qed.

Lemma sort_desc_sorted l :
  NoDup l →
  (∀ e, e ∈ l → e.2.1.1 ≤ e.2.1.2) →
  (∀ a b, a ∈ l → b ∈ l → a = b ∨ apart a.2 b.2) →
  StronglySorted (λ a b : string * span, b.2.1.2 < a.2.1.1) (sort_desc l).
Proof.
  induction l as [|x l IH]; intros Hnd Hspan Hapart.
  - constructor.
  - change (sort_desc (x :: l)) with (insert_desc x (sort_desc l)).
    apply NoDup_cons in Hnd as [Hx Hnd]. apply insert_desc_sorted.
    + apply Hspan. left.
    + apply Forall_forall. intros y Hy. apply (proj1 (elem_of_sort_desc l y)) in Hy. split.
      * apply Hspan. by right.
      * destruct (Hapart x y) as [->|?]; [left|by right|done|done].
    + apply IH; [done| |]; intros; [apply Hspan|apply Hapart]; by right.
Qed.

Lemma length_splice (cur : list string) start end_ body :
  start ≤ end_ → end_ < length cur → length body ≤ S end_ - start →
  start ≤ length (splice cur start end_ body) ≤ length cur.
Proof.
  intros. unfold splice. rewrite !length_app, length_take, length_drop. lia.
Qed.

Lemma pass4_fold_length l (cur : list string) :
  StronglySorted (λ a b : string * span, b.2.1.2 < a.2.1.1) l →
  (∀ e, e ∈ l → e.2.1.1 ≤ e.2.1.2 < length cur) →
  length (foldl pass4_body cur l) ≤ length cur.
Proof.
  revert cur. induction l as [|[name [[start end_] is_static]] l IH];
    intros cur Hs Hin; [done|].
  apply StronglySorted_inv in Hs as [Hs Hlater].
  destruct (Hin (name, (start, end_, is_static))) as [H1 H2]; [left|].
  cbn [fst snd] in H1, H2.
  pose proof (length_splice cur start end_
                (strip_gui_data_in_function cur start end_) H1 H2
                (rewriter_length cur start end_)) as [Hlo Hhi].
  cbn [foldl pass4_body].
  etrans; [apply IH; [done|]|exact Hhi].
  intros e He. destruct (Hin e) as [He1 He2]; [by right|].
  eapply Forall_forall in Hlater; [|exact He].
  destruct e as [en [[es ee] eb]]. cbn [fst snd] in *. lia.
Qed.

Lemma pass4_length output : length (pass4 output) ≤ length output.
Proof.
  unfold pass4.
  destruct (build_function_map_spans output) as [Hspan Hapart].
  apply pass4_fold_length.
  - apply sort_desc_sorted.
    + apply NoDup_filter. eapply NoDup_fmap_1, build_function_map_NoDup.
    + intros e [_ He]%list_elem_of_filter. by apply Hspan.
    + intros a b [_ Ha]%list_elem_of_filter [_ Hb]%list_elem_of_filter.
      by apply Hapart.
  - intros [name [[start end_] is_static]] [_ He]%elem_of_sort_desc%list_elem_of_filter.
    by apply build_function_map_in_range in He.
Qed.

Lemma pass4b_length output : length (pass4b output) ≤ length output.
Proof.
  induction output as [|l output IH]; simpl; [done|].
  destruct (widget_if_line _); [simpl; lia|].
  destruct (widget_call_line _); simpl; lia.
Qed.

Lemma final_lines_length lines :
  length (final_lines (strip_lines lines)) ≤ length lines.
Proof.
  rewrite final_lines_unfold. cbv zeta.
  set (to_remove := find_all_functions_to_remove _ _).
  set (output3 := remove_forward_declarations _ _).
  set (output4b := pass4b _).
  etrans; [apply sublist_length, pass7_sublist|].
  etrans; [apply sublist_length, pass6_sublist|].
  etrans; [apply sublist_length, pass5_sublist|].
  etrans; [apply pass4b_length|].
  etrans; [apply pass4_length|].
  etrans; [apply sublist_length, remove_forward_declarations_sublist|].
  apply sublist_length, pass2_sublist.
Qed.

(** X21: the text [strip_iop] writes never has more lines than the text it
    read: every pass deletes lines, replaces one line by one, or replaces the
    lines of a function by no more lines. *)
Theorem output_never_longer (lines : list string) :
  length (final_lines (strip_lines lines)) ≤ length lines.
Proof. apply final_lines_length. Qed.


(** ** The two policies *)

(** X23: the protected names and the explicit GUI names never collide: no
    protected name is a GUI entry point or begins with a GUI prefix, so the
    protection test of the first phase never has to save a function. *)
Theorem explicit_gui_names_not_protected (name : string) :
  is_explicitly_gui_function name = true → name ∉ KEEP_FUNCTIONS.
Proof.
  intros Hgui Hkeep.
  assert (Forall (λ n, is_explicitly_gui_function n = false) (elements KEEP_FUNCTIONS))
    as Hall by (apply (bool_decide_unpack _); vm_compute; exact I).
  apply elem_of_elements in Hkeep.
  eapply Forall_forall in Hall; [|exact Hkeep]. congruence.
Qed.

Lemma explicit_gui_names_not_protected_witness : "gui_init" ∉ KEEP_FUNCTIONS.
Proof.
  apply (explicit_gui_names_not_protected "gui_init"). vm_compute. reflexivity.
Defined.
